(** * golog: a leveled logger with tags, error checks and panic recovery

    Shallow embedding of [logger.go] and the properties of its
    specification.

    Go values are modelled as follows.
    - [int] flags are [Z]; the code only ever compares them with [1].
    - An [error] is [option err_val]: [None] is the nil interface.
    - [interface{}] operands are the inductive [iface]; a [[]interface{}]
      is a [list iface], and a slice stored in one operand is [Slice].
    - [*logger] is a location in a heap of [logger] structs.
    - A Go function is a computation [M A]: it takes the world (standard
      output, clock, heap, the panic deferred calls run under) and either
      returns or panics, handing back the new world. *)

From stdpp Require Import base gmap strings list.
From Stdlib Require Import ZArith Lia DecimalString.

Open Scope Z_scope.

(** ** Values *)

(** A non-nil error value, given by what its [Error()] method returns. *)
Record err_val := ErrVal { Error : string }.

(** The Go interface type [error]; [None] is [nil]. *)
Definition error := option err_val.

(** Values of type [interface{}] that the facility prints or panics with. *)
#[warnings="-register-all"] Inductive iface :=
| Nil
| Str (s : string)
| Int (z : Z)
| Err (x : err_val)
| Slice (l : list iface).

(** Conversion of an [error] to [interface{}], as done implicitly by
    [append(v, err)] and [panic(err)]. *)
Definition of_error (err : error) : iface :=
  match err with
  | Some x => Err x
  | None => Nil
  end.

(** [r != nil] for an [interface{}] value. *)
Definition non_nil (r : iface) : bool :=
  match r with
  | Nil => false
  | _ => true
  end.

(** ** Package [fmt] *)

(** The [%v] rendering of one operand: strings verbatim, integers in
    decimal, errors through [Error()], the nil interface as [<nil>], and a
    slice as its elements separated by spaces inside square brackets. *)
Fixpoint format_v (a : iface) : string :=
  match a with
  | Nil => "<nil>"
  | Str s => s
  | Int z => NilZero.string_of_int (Z.to_int z)
  | Err x => Error x
  | Slice l => "[" +:+ String.concat " " (map format_v l) +:+ "]"
  end.

(** The bytes [fmt.Println] writes: the operands separated by single
    spaces, then a newline. *)
Definition newline : string := String (Ascii.ascii_of_nat 10) EmptyString.

Definition Sprintln (a : list iface) : string :=
  String.concat " " (map format_v a) +:+ newline.

(** [fmt.Sprintf("[%s]", s)] and [fmt.Sprintf("[%s][%s]", s, t)]. *)
Definition Sprintf_1 (s : string) : string := "[" +:+ s +:+ "]".
Definition Sprintf_2 (s t : string) : string := "[" +:+ s +:+ "][" +:+ t +:+ "]".

(** ** The struct and the world *)

(** [type logger struct]. *)
Record logger := mk_logger {
  tag : string;
  d : Z;
  w : Z;
  e : Z;
  timeFormat : string
}.

Definition loc := positive.

(** An instant of the wall clock; its meaning is given by the rendering
    function the facility is parameterised with. *)
Definition Time := Z.

Record world := mk_world {
  stdout : list string;        (* writes to standard output, oldest first *)
  clock : Time;                (* what time.Now() returns *)
  heap : gmap loc logger;      (* the allocated logger structs *)
  panicking : option iface     (* the panic whose deferred calls are running *)
}.

Definition write (s : string) (σ : world) : world :=
  mk_world (stdout σ ++ [s]) (clock σ) (heap σ) (panicking σ).

Definition alloc (l : logger) (σ : world) : loc * world :=
  let p := fresh (dom (heap σ)) in
  (p, mk_world (stdout σ) (clock σ) (<[p := l]> (heap σ)) (panicking σ)).

Definition set_panicking (r : option iface) (σ : world) : world :=
  mk_world (stdout σ) (clock σ) (heap σ) r.

(** ** Computations that may panic *)

Inductive outcome (A : Type) :=
| Returns (a : A)
| Panics (r : iface).
Arguments Returns {A} a.
Arguments Panics {A} r.

Definition M (A : Type) : Type := world → outcome A * world.

#[global] Instance M_ret : MRet M := λ A a σ, (Returns a, σ).

#[global] Instance M_bind : MBind M := λ A B k m σ,
  match m σ with
  | (Returns a, σ') => k a σ'
  | (Panics r, σ') => (Panics r, σ')
  end.

(** The builtin [panic]. *)
Definition panic {A} (r : iface) : M A := λ σ, (Panics r, σ).

(** [fmt.Println]: one write to standard output. *)
Definition Println (a : list iface) : M unit :=
  λ σ, (Returns tt, write (Sprintln a) σ).

(** [time.Now()]. *)
Definition time_Now : M Time := λ σ, (Returns (clock σ), σ).

(** Reading a field through a [*logger]; a nil or dangling pointer is a
    run-time panic. *)
Definition nil_dereference : iface :=
  Err (ErrVal "runtime error: invalid memory address or nil pointer dereference").

Definition load (self : loc) : M logger :=
  λ σ, match heap σ !! self with
       | Some l => (Returns l, σ)
       | None => (Panics nil_dereference, σ)
       end.

(** Who called a function: the run-time system running a deferred call,
    or ordinary Go code. The builtin [recover] returns the panic value and
    stops the panic only in a function that was itself the deferred call
    ("recover was called directly by a deferred function"); anywhere else
    it returns nil and changes nothing. *)
Inductive caller := ByDefer | ByCall.

Definition recover (c : caller) : M iface :=
  λ σ, match c, panicking σ with
       | ByDefer, Some r => (Returns r, set_panicking None σ)
       | _, _ => (Returns Nil, σ)
       end.

(** A function body with one [defer f()] statement at its top: the
    deferred call runs when the body returns or panics. A panic that the
    deferred call recovered ends there and the function returns (here
    [None], for its zero results); otherwise it goes on to the caller. *)
Definition with_defer {A} (f : caller → M unit) (body : M A) : M (option A) :=
  λ σ, match body σ with
       | (Returns a, σ1) =>
           match f ByDefer (set_panicking None σ1) with
           | (Returns _, σ2) => (Returns (Some a), set_panicking (panicking σ1) σ2)
           | (Panics r', σ2) => (Panics r', set_panicking (panicking σ1) σ2)
           end
       | (Panics r, σ1) =>
           match f ByDefer (set_panicking (Some r) σ1) with
           | (Returns _, σ2) =>
               match panicking σ2 with
               | None => (Returns None, set_panicking (panicking σ1) σ2)
               | Some r' => (Panics r', set_panicking (panicking σ1) σ2)
               end
           | (Panics r', σ2) => (Panics r', set_panicking (panicking σ1) σ2)
           end
       end.

(** A [for _, x := range xs] loop. *)
Fixpoint range {A} (xs : list A) (body : A → M unit) : M unit :=
  match xs with
  | [] => mret tt
  | x :: rest => body x;; range rest body
  end.

(** [err != nil] for an [error]. *)
Definition not_nil (err : error) : bool :=
  match err with
  | Some _ => true
  | None => false
  end.

(** ** Global level state *)

(** The constants [DEBUG], [WARN] and [ERROR]. *)
Record levels := mk_levels { DEBUG : Z; WARN : Z; ERROR : Z }.

(** Their values in the source. *)
Definition source_levels : levels := mk_levels 1 1 1.

(** ** Observations on standard output *)

(** Going from [σ] to [σ'] wrote exactly one more line. *)
Definition logged (σ σ' : world) : Prop :=
  ∃ line, stdout σ' = stdout σ ++ [line].

(** Several writes in a row. *)
Definition writes (ls : list string) (σ : world) : world :=
  mk_world (stdout σ ++ ls) (clock σ) (heap σ) (panicking σ).

(** The non-nil entries of a slice of errors, in slice order. *)
Definition non_nil_entries (errs : list error) : list err_val := omap id errs.

(** ** Sample data *)

Definition sample_logger : logger := mk_logger "db" 1 1 0 "2006-01-02".

Definition sample_world : world :=
  mk_world [] 0 {[ 1%positive := sample_logger ]} None.

Definition sample_Format (t : Time) (layout : string) : string :=
  layout +:+ "@" +:+ NilZero.string_of_int (Z.to_int t).

Definition boom : err_val := ErrVal "boom".

Section Facility.

Variable G : levels.

(** [time.Time.Format]: the rendering of an instant in a layout. *)
Variable time_Format : Time → string → string.

(** ** Free logging functions *)

(** [func D(v ...interface{})]: the slice [v] is one operand of
    [fmt.Println], next to the level tag. *)
Definition D (v : list iface) : M unit :=
  if DEBUG G =? 1 then Println [Str "[DBG]"; Slice v] else mret tt.

Definition W (v : list iface) : M unit :=
  if WARN G =? 1 then Println [Str "[WRN]"; Slice v] else mret tt.

Definition E (v : list iface) : M unit :=
  if ERROR G =? 1 then Println [Str "[ERR]"; Slice v] else mret tt.

(** ** Logger instances *)

(** [func Logger(tag string, d int, w int, e int, timeFormat ...string) *logger] *)
Definition Logger (tag : string) (d w e : Z) (timeFormat : list string) : M loc :=
  let tf := match timeFormat with
            | x :: _ => x
            | [] => ""
            end in
  λ σ, let (p, σ') := alloc (mk_logger tag d w e tf) σ in (Returns p, σ').

(** [func (self *logger) formatMessage() string] *)
Definition formatMessage (self : loc) : M string :=
  l ← load self;
  if negb (String.eqb (timeFormat l) "") then
    t ← time_Now;
    mret (Sprintf_2 (time_Format t (timeFormat l)) (tag l))
  else mret (Sprintf_1 (tag l)).

(** [func (self *logger) D(v ...interface{})] and its siblings. *)
Definition logger_D (self : loc) (v : list iface) : M unit :=
  l ← load self;
  if d l =? 1 then
    p ← formatMessage self;
    D (Str p :: v)
  else mret tt.

Definition logger_W (self : loc) (v : list iface) : M unit :=
  l ← load self;
  if w l =? 1 then
    p ← formatMessage self;
    W (Str p :: v)
  else mret tt.

Definition logger_E (self : loc) (v : list iface) : M unit :=
  l ← load self;
  if e l =? 1 then
    p ← formatMessage self;
    E (Str p :: v)
  else mret tt.

(** ** Check helpers *)

(** [func CheckW(err error, v ...interface{}) bool] *)
Definition CheckW (err : error) (v : list iface) : M bool :=
  (if not_nil err then W (v ++ [of_error err]) else mret tt);;
  mret (not_nil err).

(** [func (self *logger) CheckW(err error, v ...interface{}) bool] *)
Definition logger_CheckW (self : loc) (err : error) (v : list iface) : M bool :=
  l ← load self;
  if w l =? 1 then CheckW err (Str (Sprintf_1 (tag l)) :: v)
  else mret (not_nil err).

(** [func CheckE(err error, v ...interface{})] *)
Definition CheckE (err : error) (v : list iface) : M unit :=
  if not_nil err then
    E (v ++ [of_error err]);;
    panic (of_error err)
  else mret tt.

(** [func (self *logger) CheckE(err error, v ...interface{})] *)
Definition logger_CheckE (self : loc) (err : error) (v : list iface) : M unit :=
  if not_nil err then
    l ← load self;
    (if (e l =? 1) && (ERROR G =? 1)
     then E (Str (Sprintf_1 (tag l)) :: (v ++ [of_error err]))
     else mret tt);;
    panic (of_error err)
  else mret tt.

(** [func findFirstError(errs []error) error] *)
Fixpoint findFirstError (errs : list error) : error :=
  match errs with
  | [] => None
  | err :: rest => if not_nil err then err else findFirstError rest
  end.

(** [func CheckMultiE(errs []error, v ...interface{})] *)
Definition CheckMultiE (errs : list error) (v : list iface) : M unit :=
  let firstErr := findFirstError errs in
  if not_nil firstErr then
    (if ERROR G =? 1
     then range errs (λ err,
            if not_nil err then E (v ++ [of_error err]) else mret tt)
     else mret tt);;
    panic (of_error firstErr)
  else mret tt.

(** [func (self *logger) CheckMultiE(errs []error, v ...interface{})] *)
Definition logger_CheckMultiE (self : loc) (errs : list error) (v : list iface)
  : M unit :=
  let firstErr := findFirstError errs in
  if not_nil firstErr then
    l ← load self;
    (if (e l =? 1) && (ERROR G =? 1)
     then let prefix := Sprintf_1 (tag l) in
          range errs (λ err,
            if not_nil err then E (Str prefix :: (v ++ [of_error err]))
            else mret tt)
     else mret tt);;
    panic (of_error firstErr)
  else mret tt.

(** ** Recovery *)

(** [func BreakOnError()]: the function that calls [recover]. *)
Definition BreakOnError (c : caller) : M unit :=
  r ← recover c;
  if non_nil r then E [Str "Recovered from panic:"; r] else mret tt.

(** [func (self *logger) BreakOnError() { BreakOnError() }]: whoever calls
    the method, the free function is entered by an ordinary call. *)
Definition logger_BreakOnError (self : loc) (c : caller) : M unit :=
  BreakOnError ByCall.

(** ** Calls on the facility *)

(** The operations of the facility with their arguments. *)
Inductive operation :=
| OpD (v : list iface)
| OpW (v : list iface)
| OpE (v : list iface)
| OpCheckW (err : error) (v : list iface)
| OpCheckE (err : error) (v : list iface)
| OpCheckMultiE (errs : list error) (v : list iface)
| OpBreakOnError (c : caller).

(** An operation is called as a free function or as a method. *)
Inductive receiver :=
| Free
| Method (self : loc).

Definition invoke (r : receiver) (op : operation) : M unit :=
  match r, op with
  | Free, OpD v => D v
  | Free, OpW v => W v
  | Free, OpE v => E v
  | Free, OpCheckW err v => CheckW err v;; mret tt
  | Free, OpCheckE err v => CheckE err v
  | Free, OpCheckMultiE errs v => CheckMultiE errs v
  | Free, OpBreakOnError c => BreakOnError c
  | Method self, OpD v => logger_D self v
  | Method self, OpW v => logger_W self v
  | Method self, OpE v => logger_E self v
  | Method self, OpCheckW err v => logger_CheckW self err v;; mret tt
  | Method self, OpCheckE err v => logger_CheckE self err v
  | Method self, OpCheckMultiE errs v => logger_CheckMultiE self errs v
  | Method self, OpBreakOnError c => logger_BreakOnError self c
  end.

(** A sequence of calls, each made in the world the one before left,
    whether it returned or panicked. *)
Definition run (calls : list (receiver * operation)) (σ : world) : world :=
  fold_left (λ σ' c, snd (invoke c.1 c.2 σ')) calls σ.

(** A computation that leaves the heap of logger structs alone. *)
Definition preserves_heap {A} (m : M A) : Prop :=
  ∀ σ, heap (snd (m σ)) = heap σ.

(** The level tag of the lines an operation writes. *)
Definition level_of (op : operation) : string :=
  match op with
  | OpD _ => "[DBG]"
  | OpW _ | OpCheckW _ _ => "[WRN]"
  | OpE _ | OpCheckE _ _ | OpCheckMultiE _ _ | OpBreakOnError _ => "[ERR]"
  end.

(** The most lines one call of an operation can write. *)
Definition max_lines (op : operation) : nat :=
  match op with
  | OpCheckMultiE errs _ => length errs
  | _ => 1%nat
  end.

(** A line of the shape the three free logging functions write. *)
Definition facility_line (line : string) : Prop :=
  ∃ level body,
    level ∈ ["[DBG]"; "[WRN]"; "[ERR]"]
    ∧ line = level +:+ " [" +:+ body +:+ "]" +:+ newline.

(** From [σ] to [σ'] at most [n] lines were written, after the lines that
    were there, each with the level tag [level] and the arguments in
    square brackets, and the clock was not touched. *)
Definition wrote (level : string) (n : nat) (σ σ' : world) : Prop :=
  ∃ ls, stdout σ' = stdout σ ++ ls
        ∧ Forall (λ line, ∃ body,
                    line = level +:+ " [" +:+ body +:+ "]" +:+ newline) ls
        ∧ (length ls ≤ n)%nat
        ∧ clock σ' = clock σ.

(** The global flag and the instance flag that an operation consults
    before it prints. *)
Definition global_flag (op : operation) : Z :=
  match op with
  | OpD _ => DEBUG G
  | OpW _ | OpCheckW _ _ => WARN G
  | OpE _ | OpCheckE _ _ | OpCheckMultiE _ _ | OpBreakOnError _ => ERROR G
  end.

Definition instance_flag (l : logger) (op : operation) : Z :=
  match op with
  | OpD _ => d l
  | OpW _ | OpCheckW _ _ => w l
  | OpE _ | OpCheckE _ _ | OpCheckMultiE _ _ | OpBreakOnError _ => e l
  end.

(** ** The output format in the words of the specification *)

(** A line of a free logging function as the specification gives it:
    the level tag, one space, the arguments joined by single spaces. *)
Definition spec_line (level : string) (v : list iface) : string :=
  level +:+ " " +:+ String.concat " " (map format_v v) +:+ newline.

(** The prefix of an instance as the specification gives it: the
    bracketed tag, behind the bracketed timestamp when a time format was
    configured; [t] is the instant of the call. *)
Definition spec_prefix (l : logger) (t : Time) : string :=
  if decide (timeFormat l = "")
  then "[" +:+ tag l +:+ "]"
  else "[" +:+ time_Format t (timeFormat l) +:+ "][" +:+ tag l +:+ "]".

(** A printed line with level tag [level] whose argument list begins with
    the text [p]. *)
Definition led_by (level p line : string) : Prop :=
  ∃ rest : list iface, line = Sprintln [Str level; Slice (Str p :: rest)].

(** ** Running computations *)

Lemma bind_returns {A B} (m : M A) (k : A → M B) σ a σ' :
  m σ = (Returns a, σ') → (m ≫= k) σ = k a σ'.
Proof. intros H. unfold mbind, M_bind. rewrite H. reflexivity. Qed.

Lemma load_run self l σ :
  heap σ !! self = Some l → load self σ = (Returns l, σ).
Proof. intros H. unfold load. rewrite H. reflexivity. Qed.

Lemma D_run v σ :
  D v σ = (Returns tt,
           if DEBUG G =? 1 then write (Sprintln [Str "[DBG]"; Slice v]) σ else σ).
Proof. unfold D. destruct (DEBUG G =? 1); reflexivity. Qed.

Lemma W_run v σ :
  W v σ = (Returns tt,
           if WARN G =? 1 then write (Sprintln [Str "[WRN]"; Slice v]) σ else σ).
Proof. unfold W. destruct (WARN G =? 1); reflexivity. Qed.

Lemma E_run v σ :
  E v σ = (Returns tt,
           if ERROR G =? 1 then write (Sprintln [Str "[ERR]"; Slice v]) σ else σ).
Proof. unfold E. destruct (ERROR G =? 1); reflexivity. Qed.

Lemma formatMessage_run self l σ :
  heap σ !! self = Some l →
  formatMessage self σ
  = (Returns (if negb (String.eqb (timeFormat l) "")
              then Sprintf_2 (time_Format (clock σ) (timeFormat l)) (tag l)
              else Sprintf_1 (tag l)), σ).
Proof.
  intros H. unfold formatMessage.
  rewrite (bind_returns _ _ _ _ _ (load_run _ _ _ H)).
  destruct (negb _); reflexivity.
Qed.

(** ** Facts about the output log *)

Lemma logged_write line σ : logged σ (write line σ).
Proof. exists line. reflexivity. Qed.

Lemma not_logged_same σ : ¬ logged σ σ.
Proof.
  intros [line H]. apply (f_equal length) in H.
  rewrite length_app in H. simpl in H. lia.
Qed.

Lemma logged_if (b : bool) line σ :
  logged σ (if b then write line σ else σ) ↔ b = true.
Proof.
  destruct b; split; intros H; try done.
  - apply logged_write.
  - destruct (not_logged_same _ H).
Qed.

Lemma andb_flags (x y : Z) : (x =? 1) && (y =? 1) = true ↔ x = 1 ∧ y = 1.
Proof. rewrite andb_true_iff, !Z.eqb_eq. reflexivity. Qed.

(** ** Check helpers: results *)

Lemma CheckE_run x v σ :
  CheckE (Some x) v σ
  = (Panics (Err x),
     if ERROR G =? 1
     then write (Sprintln [Str "[ERR]"; Slice (v ++ [Err x])]) σ else σ).
Proof.
  unfold CheckE. simpl.
  rewrite (bind_returns _ _ _ _ _ (E_run _ _)). reflexivity.
Qed.

Lemma logger_CheckE_run self l x v σ :
  heap σ !! self = Some l →
  logger_CheckE self (Some x) v σ
  = (Panics (Err x),
     if (e l =? 1) && (ERROR G =? 1)
     then write (Sprintln [Str "[ERR]";
                           Slice (Str (Sprintf_1 (tag l)) :: v ++ [Err x])]) σ
     else σ).
Proof.
  intros H. unfold logger_CheckE. simpl.
  rewrite (bind_returns _ _ _ _ _ (load_run _ _ _ H)).
  destruct (e l =? 1); simpl; [|reflexivity].
  destruct (ERROR G =? 1) eqn:HE; [|reflexivity].
  rewrite (bind_returns _ _ _ _ _ (E_run _ _)), HE. reflexivity.
Qed.

Lemma CheckW_run err v σ :
  CheckW err v σ
  = (Returns (not_nil err),
     match err with
     | Some x => if WARN G =? 1
                 then write (Sprintln [Str "[WRN]"; Slice (v ++ [Err x])]) σ
                 else σ
     | None => σ
     end).
Proof.
  unfold CheckW. destruct err as [x|]; simpl; [|reflexivity].
  rewrite (bind_returns _ _ _ _ _ (W_run _ _)). reflexivity.
Qed.

Lemma logger_CheckW_run self l err v σ :
  heap σ !! self = Some l →
  logger_CheckW self err v σ
  = (Returns (not_nil err),
     match err with
     | Some x => if (w l =? 1) && (WARN G =? 1)
                 then write (Sprintln [Str "[WRN]";
                        Slice (Str (Sprintf_1 (tag l)) :: v ++ [Err x])]) σ
                 else σ
     | None => σ
     end).
Proof.
  intros H. unfold logger_CheckW.
  rewrite (bind_returns _ _ _ _ _ (load_run _ _ _ H)).
  destruct (w l =? 1); simpl.
  - rewrite CheckW_run. reflexivity.
  - destruct err; reflexivity.
Qed.

(** ** Instance logging: results *)

Lemma logger_D_run self l v σ :
  heap σ !! self = Some l →
  logger_D self v σ
  = (if d l =? 1 then D (Str (if negb (String.eqb (timeFormat l) "")
          then Sprintf_2 (time_Format (clock σ) (timeFormat l)) (tag l)
          else Sprintf_1 (tag l)) :: v) σ
     else (Returns tt, σ)).
Proof.
  intros H. unfold logger_D.
  rewrite (bind_returns _ _ _ _ _ (load_run _ _ _ H)).
  destruct (d l =? 1); [|reflexivity].
  rewrite (bind_returns _ _ _ _ _ (formatMessage_run _ _ _ H)). reflexivity.
Qed.

Lemma logger_W_run self l v σ :
  heap σ !! self = Some l →
  logger_W self v σ
  = (if w l =? 1 then W (Str (if negb (String.eqb (timeFormat l) "")
          then Sprintf_2 (time_Format (clock σ) (timeFormat l)) (tag l)
          else Sprintf_1 (tag l)) :: v) σ
     else (Returns tt, σ)).
Proof.
  intros H. unfold logger_W.
  rewrite (bind_returns _ _ _ _ _ (load_run _ _ _ H)).
  destruct (w l =? 1); [|reflexivity].
  rewrite (bind_returns _ _ _ _ _ (formatMessage_run _ _ _ H)). reflexivity.
Qed.

Lemma logger_E_run self l v σ :
  heap σ !! self = Some l →
  logger_E self v σ
  = (if e l =? 1 then E (Str (if negb (String.eqb (timeFormat l) "")
          then Sprintf_2 (time_Format (clock σ) (timeFormat l)) (tag l)
          else Sprintf_1 (tag l)) :: v) σ
     else (Returns tt, σ)).
Proof.
  intros H. unfold logger_E.
  rewrite (bind_returns _ _ _ _ _ (load_run _ _ _ H)).
  destruct (e l =? 1); [|reflexivity].
  rewrite (bind_returns _ _ _ _ _ (formatMessage_run _ _ _ H)). reflexivity.
Qed.

(** C1. For a non-nil error [x], whatever the global and instance flags,
    the free and the instance form of [CheckE] panic with [x] as payload.
    The free form writes its one error line exactly when [ERROR] is 1, the
    instance form exactly when the instance flag [e] and [ERROR] are both
    1; no flag stands in the way of the panic. *)
Theorem CheckE_panics_whatever_the_flags self l x v σ :
  heap σ !! self = Some l →
  let free := CheckE (Some x) v σ in
  let inst := logger_CheckE self (Some x) v σ in
  fst free = Panics (Err x)
  ∧ fst inst = Panics (Err x)
  ∧ snd free = (if ERROR G =? 1
                then write (Sprintln [Str "[ERR]"; Slice (v ++ [Err x])]) σ
                else σ)
  ∧ snd inst = (if (e l =? 1) && (ERROR G =? 1)
                then write (Sprintln [Str "[ERR]";
                       Slice (Str (Sprintf_1 (tag l)) :: v ++ [Err x])]) σ
                else σ)
  ∧ (logged σ (snd free) ↔ ERROR G = 1)
  ∧ (logged σ (snd inst) ↔ e l = 1 ∧ ERROR G = 1).
Proof.
  intros H free inst. subst free inst.
  rewrite CheckE_run, (logger_CheckE_run _ _ _ _ _ H). simpl.
  split_and!; try reflexivity.
  - rewrite logged_if. apply Z.eqb_eq.
  - rewrite logged_if. apply andb_flags.
Qed.

(** C4. [CheckW], free and instance form, returns true exactly when the
    error is non-nil. A nil error writes nothing under any flags; a
    non-nil error writes one warning line exactly when [WARN] is 1 (free
    form), or when the instance flag [w] and [WARN] are both 1 (instance
    form). *)
Theorem CheckW_reports_and_logs self l err v σ :
  heap σ !! self = Some l →
  let free := CheckW err v σ in
  let inst := logger_CheckW self err v σ in
  (fst free = Returns true ↔ err ≠ None)
  ∧ (fst inst = Returns true ↔ err ≠ None)
  ∧ (fst free = Returns false ↔ err = None)
  ∧ (fst inst = Returns false ↔ err = None)
  ∧ (err = None → snd free = σ ∧ snd inst = σ)
  ∧ (∀ x, err = Some x →
       snd free = (if WARN G =? 1
                   then write (Sprintln [Str "[WRN]"; Slice (v ++ [Err x])]) σ
                   else σ)
       ∧ snd inst = (if (w l =? 1) && (WARN G =? 1)
                     then write (Sprintln [Str "[WRN]";
                            Slice (Str (Sprintf_1 (tag l)) :: v ++ [Err x])]) σ
                     else σ)
       ∧ (logged σ (snd free) ↔ WARN G = 1)
       ∧ (logged σ (snd inst) ↔ w l = 1 ∧ WARN G = 1)).
Proof.
  intros H free inst. subst free inst.
  rewrite CheckW_run, (logger_CheckW_run _ _ _ _ _ H). simpl.
  destruct err as [x|]; simpl.
  - split_and!; try (split; congruence); try congruence.
    intros y [= <-]. split_and!; try reflexivity.
    + rewrite logged_if. apply Z.eqb_eq.
    + rewrite logged_if. apply andb_flags.
  - split_and!; try (split; congruence); try done.
Qed.

(** C5. An instance method [D], [W] or [E] writes a line exactly when the
    instance flag of its level and the global flag of that level are both
    1; when either is not 1 the world, standard output included, is left
    as it was. *)
Theorem instance_print_needs_both_flags self l v σ :
  heap σ !! self = Some l →
  (logged σ (snd (logger_D self v σ)) ↔ d l = 1 ∧ DEBUG G = 1)
  ∧ (logged σ (snd (logger_W self v σ)) ↔ w l = 1 ∧ WARN G = 1)
  ∧ (logged σ (snd (logger_E self v σ)) ↔ e l = 1 ∧ ERROR G = 1)
  ∧ (¬ (d l = 1 ∧ DEBUG G = 1) → logger_D self v σ = (Returns tt, σ))
  ∧ (¬ (w l = 1 ∧ WARN G = 1) → logger_W self v σ = (Returns tt, σ))
  ∧ (¬ (e l = 1 ∧ ERROR G = 1) → logger_E self v σ = (Returns tt, σ)).
Proof.
  intros H.
  rewrite (logger_D_run _ _ _ _ H), (logger_W_run _ _ _ _ H),
    (logger_E_run _ _ _ _ H), !D_run, !W_run, !E_run.
  assert (gate : ∀ (x y : Z) (line : string),
    (logged σ (snd (if x =? 1
                    then (Returns tt, if y =? 1 then write line σ else σ)
                    else (Returns tt, σ))) ↔ x = 1 ∧ y = 1)
    ∧ (¬ (x = 1 ∧ y = 1) →
       (if x =? 1
        then (Returns tt, if y =? 1 then write line σ else σ)
        else (Returns tt, σ)) = (Returns tt, σ))).
  { intros x y line.
    destruct (Z.eqb_spec x 1) as [->|Hx], (Z.eqb_spec y 1) as [->|Hy]; simpl;
      (split; [split; [intros HL | intros [??]] | intros HN]);
      try reflexivity; try lia; try apply logged_write;
      try (destruct (not_logged_same _ HL)). }
  split_and!; apply gate.
Qed.

(** ** The first non-nil error *)

Lemma findFirstError_first pre x post :
  Forall (λ y : error, y = None) pre →
  findFirstError (pre ++ Some x :: post) = Some x.
Proof.
  induction 1 as [|y pre Hy _ IH]; simpl; [reflexivity|].
  rewrite Hy. simpl. exact IH.
Qed.

Lemma findFirstError_Some errs x :
  findFirstError errs = Some x →
  ∃ pre post, errs = pre ++ Some x :: post ∧ Forall (λ y : error, y = None) pre.
Proof.
  induction errs as [|[y|] errs IH]; simpl; intros H.
  - discriminate.
  - injection H as ->. exists [], errs. split; [reflexivity | constructor].
  - destruct (IH H) as (pre & post & -> & Hpre).
    exists (None :: pre), post. split; [reflexivity | by constructor].
Qed.

Lemma findFirstError_None errs :
  findFirstError errs = None ↔ Forall (λ y : error, y = None) errs.
Proof.
  induction errs as [|[y|] errs IH]; simpl.
  - split; [constructor | reflexivity].
  - split; [discriminate | inversion 1; discriminate].
  - rewrite IH. split; [by constructor | by inversion 1].
Qed.

Lemma non_nil_entries_all_nil errs :
  Forall (λ y : error, y = None) errs → non_nil_entries errs = [].
Proof.
  induction 1 as [|y errs -> _ IH]; [reflexivity|]. exact IH.
Qed.

(** ** Several writes *)

Lemma writes_nil σ : writes [] σ = σ.
Proof. destruct σ. unfold writes. simpl. by rewrite app_nil_r. Qed.

Lemma writes_write line ls σ : writes ls (write line σ) = writes (line :: ls) σ.
Proof. unfold writes, write. simpl. by rewrite <- app_assoc. Qed.

(** The logging loop of [CheckMultiE]: one [E] call per non-nil entry, in
    slice order; [args x] is the argument list built for entry [x]. *)
Lemma range_log_run (args : error → list iface) errs σ :
  range errs (λ err, if not_nil err then E (args err) else mret tt) σ
  = (Returns tt,
     writes (if ERROR G =? 1
             then map (λ x, Sprintln [Str "[ERR]"; Slice (args (Some x))])
                      (non_nil_entries errs)
             else []) σ).
Proof.
  revert σ. induction errs as [|[y|] errs IH]; intros σ; simpl.
  - destruct (ERROR G =? 1); by rewrite writes_nil.
  - rewrite (bind_returns _ _ _ _ _ (E_run _ _)), IH.
    destruct (ERROR G =? 1); [|reflexivity].
    by rewrite writes_write.
  - unfold mbind, M_bind, mret, M_ret. exact (IH σ).
Qed.

Lemma CheckMultiE_run errs v σ :
  CheckMultiE errs v σ
  = (match findFirstError errs with
     | Some x => Panics (Err x)
     | None => Returns tt
     end,
     writes (if ERROR G =? 1
             then map (λ x, Sprintln [Str "[ERR]"; Slice (v ++ [Err x])])
                      (non_nil_entries errs)
             else []) σ).
Proof.
  unfold CheckMultiE. destruct (findFirstError errs) as [x|] eqn:Hf; simpl.
  - destruct (ERROR G =? 1) eqn:HE.
    + rewrite (bind_returns _ _ _ _ _
        (range_log_run (λ err, v ++ [of_error err]) _ _)), HE. reflexivity.
    + by rewrite writes_nil.
  - apply findFirstError_None, non_nil_entries_all_nil in Hf. rewrite Hf.
    destruct (ERROR G =? 1); by rewrite writes_nil.
Qed.

Lemma logger_CheckMultiE_run self l errs v σ :
  heap σ !! self = Some l →
  logger_CheckMultiE self errs v σ
  = (match findFirstError errs with
     | Some x => Panics (Err x)
     | None => Returns tt
     end,
     writes (if (e l =? 1) && (ERROR G =? 1)
             then map (λ x, Sprintln [Str "[ERR]";
                        Slice (Str (Sprintf_1 (tag l)) :: v ++ [Err x])])
                      (non_nil_entries errs)
             else []) σ).
Proof.
  intros H. unfold logger_CheckMultiE.
  destruct (findFirstError errs) as [x|] eqn:Hf; simpl.
  - rewrite (bind_returns _ _ _ _ _ (load_run _ _ _ H)).
    destruct (e l =? 1); simpl; [|by rewrite writes_nil].
    destruct (ERROR G =? 1) eqn:HE; [|by rewrite writes_nil].
    rewrite (bind_returns _ _ _ _ _
      (range_log_run (λ err, Str (Sprintf_1 (tag l)) :: v ++ [of_error err]) _ _)),
      HE. reflexivity.
  - apply findFirstError_None, non_nil_entries_all_nil in Hf. rewrite Hf.
    destruct (_ && _); by rewrite writes_nil.
Qed.

Lemma first_non_nil_outcome {A} errs x (a : A) :
  match findFirstError errs with
  | Some y => Panics (Err y)
  | None => Returns a
  end = Panics (Err x)
  ↔ ∃ pre post, errs = pre ++ Some x :: post ∧ Forall (λ y : error, y = None) pre.
Proof.
  split.
  - destruct (findFirstError errs) as [y|] eqn:Hf; [|discriminate].
    intros [= ->]. by apply findFirstError_Some.
  - intros (pre & post & -> & Hpre). by rewrite findFirstError_first.
Qed.

Lemma some_non_nil_outcome {A} errs (a : A) :
  (∃ r, match findFirstError errs with
        | Some y => Panics (Err y)
        | None => Returns a
        end = Panics r)
  ↔ ∃ x, Some x ∈ errs.
Proof.
  split.
  - intros [r Hr]. destruct (findFirstError errs) as [y|] eqn:Hf; [|discriminate].
    exists y. apply findFirstError_Some in Hf as (pre & post & -> & _).
    set_solver.
  - intros [x Hx]. destruct (findFirstError errs) as [y|] eqn:Hf; [by eexists|].
    apply findFirstError_None in Hf. rewrite Forall_forall in Hf.
    by apply Hf in Hx.
Qed.

(** C3. [CheckMultiE], free and instance form, panics exactly when the
    slice has a non-nil entry, and the payload is the first non-nil entry
    in slice order. When error logging is enabled ([ERROR] is 1, and for
    the instance form the instance flag [e] too) it writes one line per
    non-nil entry, in slice order, each with the arguments followed by
    that entry; otherwise it writes nothing. On an empty or all-nil slice
    it returns and leaves the world as it was. *)
Theorem CheckMultiE_panics_with_first self l errs v σ :
  heap σ !! self = Some l →
  let free := CheckMultiE errs v σ in
  let inst := logger_CheckMultiE self errs v σ in
  let first_is x :=
    ∃ pre post, errs = pre ++ Some x :: post
                ∧ Forall (λ y : error, y = None) pre in
  (∀ x, fst free = Panics (Err x) ↔ first_is x)
  ∧ (∀ x, fst inst = Panics (Err x) ↔ first_is x)
  ∧ ((∃ r, fst free = Panics r) ↔ ∃ x, Some x ∈ errs)
  ∧ ((∃ r, fst inst = Panics r) ↔ ∃ x, Some x ∈ errs)
  ∧ (Forall (λ y : error, y = None) errs →
       free = (Returns tt, σ) ∧ inst = (Returns tt, σ))
  ∧ snd free
    = writes (if ERROR G =? 1
              then map (λ x, Sprintln [Str "[ERR]"; Slice (v ++ [Err x])])
                       (non_nil_entries errs)
              else []) σ
  ∧ snd inst
    = writes (if (e l =? 1) && (ERROR G =? 1)
              then map (λ x, Sprintln [Str "[ERR]";
                         Slice (Str (Sprintf_1 (tag l)) :: v ++ [Err x])])
                       (non_nil_entries errs)
              else []) σ.
Proof.
  intros H free inst first_is. subst free inst first_is.
  rewrite CheckMultiE_run, (logger_CheckMultiE_run _ _ _ _ _ H). simpl.
  split_and!; try reflexivity.
  - intros x. apply first_non_nil_outcome.
  - intros x. apply first_non_nil_outcome.
  - apply some_non_nil_outcome.
  - apply some_non_nil_outcome.
  - intros Hnil. rewrite (non_nil_entries_all_nil _ Hnil).
    apply findFirstError_None in Hnil. rewrite Hnil.
    destruct (ERROR G =? 1), (e l =? 1); simpl; by rewrite writes_nil.
Qed.

(** ** Strings *)

Lemma string_app_assoc (a b c : string) : (a +:+ b) +:+ c = a +:+ b +:+ c.
Proof.
  induction a as [|ch a IH]; [reflexivity|].
  change (String ch ((a +:+ b) +:+ c) = String ch (a +:+ b +:+ c)).
  by rewrite IH.
Qed.

Lemma string_length_app (a b : string) :
  String.length (a +:+ b) = (String.length a + String.length b)%nat.
Proof.
  induction a as [|ch a IH]; [reflexivity|].
  change (S (String.length (a +:+ b)) = S (String.length a + String.length b)).
  by rewrite IH.
Qed.

(** What [fmt.Println] makes of a level tag and an argument slice. *)
Lemma Sprintln_level level v :
  Sprintln [Str level; Slice v]
  = level +:+ " [" +:+ String.concat " " (map format_v v) +:+ "]" +:+ newline.
Proof.
  unfold Sprintln. simpl. rewrite !string_app_assoc. reflexivity.
Qed.

Lemma Sprintln_level_not_spec_line level v :
  Sprintln [Str level; Slice v] ≠ spec_line level v.
Proof.
  rewrite Sprintln_level. unfold spec_line. intros H.
  apply (f_equal String.length) in H.
  repeat (rewrite string_length_app in H; simpl in H). lia.
Qed.

Lemma formatMessage_spec_prefix l t :
  (if negb (String.eqb (timeFormat l) "")
   then Sprintf_2 (time_Format t (timeFormat l)) (tag l)
   else Sprintf_1 (tag l)) = spec_prefix l t.
Proof.
  unfold spec_prefix, Sprintf_1, Sprintf_2.
  destruct (String.eqb_spec (timeFormat l) ""), (decide (timeFormat l = ""));
    simpl; congruence.
Qed.

Lemma timestamp_prefix_differs l t :
  timeFormat l ≠ "" → spec_prefix l t ≠ Sprintf_1 (tag l).
Proof.
  intros Hne H. unfold spec_prefix, Sprintf_1 in H.
  destruct (decide (timeFormat l = "")); [done|].
  apply (f_equal String.length) in H.
  repeat (rewrite string_length_app in H; simpl in H). lia.
Qed.

(** The free logging functions: the line they write. *)
Lemma free_log_lines v σ :
  snd (D v σ)
  = (if DEBUG G =? 1
     then write ("[DBG]" +:+ " [" +:+ String.concat " " (map format_v v)
                 +:+ "]" +:+ newline) σ
     else σ)
  ∧ snd (W v σ)
    = (if WARN G =? 1
       then write ("[WRN]" +:+ " [" +:+ String.concat " " (map format_v v)
                   +:+ "]" +:+ newline) σ
       else σ)
  ∧ snd (E v σ)
    = (if ERROR G =? 1
       then write ("[ERR]" +:+ " [" +:+ String.concat " " (map format_v v)
                   +:+ "]" +:+ newline) σ
       else σ).
Proof.
  rewrite D_run, W_run, E_run, !Sprintln_level. done.
Qed.

(** C6, amended. Every line an instance writes through its methods [D],
    [W] and [E] begins with the level tag, and the first element of its
    argument list is the prefix: the bracketed timestamp of the call
    followed by the bracketed tag when the time format is not empty, the
    bracketed tag alone when it is empty. *)
Theorem instance_D_W_E_prefix self l v σ :
  heap σ !! self = Some l →
  let p := spec_prefix l (clock σ) in
  snd (logger_D self v σ)
  = (if (d l =? 1) && (DEBUG G =? 1)
     then write (Sprintln [Str "[DBG]"; Slice (Str p :: v)]) σ else σ)
  ∧ snd (logger_W self v σ)
    = (if (w l =? 1) && (WARN G =? 1)
       then write (Sprintln [Str "[WRN]"; Slice (Str p :: v)]) σ else σ)
  ∧ snd (logger_E self v σ)
    = (if (e l =? 1) && (ERROR G =? 1)
       then write (Sprintln [Str "[ERR]"; Slice (Str p :: v)]) σ else σ)
  ∧ (∀ level, led_by level p (Sprintln [Str level; Slice (Str p :: v)]))
  ∧ (∀ level, ∃ tail, Sprintln [Str level; Slice (Str p :: v)]
                      = level +:+ " " +:+ tail).
Proof.
  intros H p. subst p.
  rewrite (logger_D_run _ _ _ _ H), (logger_W_run _ _ _ _ H),
    (logger_E_run _ _ _ _ H), !D_run, !W_run, !E_run,
    formatMessage_spec_prefix.
  split_and!.
  - destruct (d l =? 1), (DEBUG G =? 1); reflexivity.
  - destruct (w l =? 1), (WARN G =? 1); reflexivity.
  - destruct (e l =? 1), (ERROR G =? 1); reflexivity.
  - intros level. by exists v.
  - intros level. eexists. rewrite Sprintln_level. reflexivity.
Qed.

(** C9. On an instance with a non-empty time format, the instance forms
    of [CheckW], [CheckE] and [CheckMultiE] put the bracketed tag alone in
    front of the logged arguments: the lines they write are given by the
    tag, the arguments and the error, with no use of the clock or of the
    time format, and their prefix differs from the one [formatMessage]
    computes for [D], [W] and [E]. *)
Theorem check_helpers_prefix_tag_only self l x errs v σ :
  heap σ !! self = Some l →
  timeFormat l ≠ "" →
  let p := "[" +:+ tag l +:+ "]" in
  snd (logger_CheckW self (Some x) v σ)
  = (if (w l =? 1) && (WARN G =? 1)
     then write (Sprintln [Str "[WRN]"; Slice (Str p :: v ++ [Err x])]) σ
     else σ)
  ∧ snd (logger_CheckE self (Some x) v σ)
    = (if (e l =? 1) && (ERROR G =? 1)
       then write (Sprintln [Str "[ERR]"; Slice (Str p :: v ++ [Err x])]) σ
       else σ)
  ∧ snd (logger_CheckMultiE self errs v σ)
    = writes (if (e l =? 1) && (ERROR G =? 1)
              then map (λ y, Sprintln [Str "[ERR]";
                                       Slice (Str p :: v ++ [Err y])])
                       (non_nil_entries errs)
              else []) σ
  ∧ (∃ q, formatMessage self σ = (Returns q, σ)
          ∧ q = "[" +:+ time_Format (clock σ) (timeFormat l) +:+ "]" +:+ p
          ∧ q ≠ p).
Proof.
  intros H Htf p. subst p.
  rewrite (logger_CheckW_run _ _ _ _ _ H), (logger_CheckE_run _ _ _ _ _ H),
    (logger_CheckMultiE_run _ _ _ _ _ H), (formatMessage_run _ _ _ H),
    formatMessage_spec_prefix.
  split_and!; try reflexivity.
  eexists. split_and!; [reflexivity | |].
  - unfold spec_prefix. destruct (decide (timeFormat l = "")); [done|].
    reflexivity.
  - by apply timestamp_prefix_differs.
Qed.

(** ** Recovery: results *)

Lemma BreakOnError_idle c σ :
  panicking σ = None → BreakOnError c σ = (Returns tt, σ).
Proof.
  intros H. unfold BreakOnError, recover, mbind, M_bind.
  rewrite H. destruct c; reflexivity.
Qed.

Lemma BreakOnError_recovers r σ :
  panicking σ = Some r → r ≠ Nil →
  BreakOnError ByDefer σ
  = (Returns tt,
     set_panicking None
       (if ERROR G =? 1
        then write (Sprintln [Str "[ERR]";
                              Slice [Str "Recovered from panic:"; r]]) σ
        else σ)).
Proof.
  intros H Hr. unfold BreakOnError, recover, mbind, M_bind. rewrite H.
  destruct r; try done; simpl; rewrite E_run;
    destruct (ERROR G =? 1); reflexivity.
Qed.

(** The method enters the free function by an ordinary call, where
    [recover] yields nil: nothing is logged and a panic stays in flight. *)
Lemma logger_BreakOnError_inert self c σ :
  logger_BreakOnError self c σ = (Returns tt, σ).
Proof.
  unfold logger_BreakOnError, BreakOnError, recover, mbind, M_bind. simpl.
  destruct (panicking σ); reflexivity.
Qed.

Lemma set_panicking_restore r line σ :
  set_panicking (panicking σ)
    (set_panicking None (write line (set_panicking (Some r) σ)))
  = write line σ.
Proof. destruct σ. reflexivity. Qed.

Lemma set_panicking_restore_silent r σ :
  set_panicking (panicking σ) (set_panicking None (set_panicking (Some r) σ))
  = σ.
Proof. destruct σ. reflexivity. Qed.

Lemma set_panicking_undo r σ :
  set_panicking (panicking σ) (set_panicking (Some r) σ) = σ.
Proof. destruct σ. reflexivity. Qed.

Lemma with_defer_BreakOnError {A} (body : M A) r σ0 σ :
  body σ0 = (Panics r, σ) → r ≠ Nil →
  with_defer BreakOnError body σ0
  = (Returns None,
     if ERROR G =? 1
     then write (Sprintln [Str "[ERR]";
                           Slice [Str "Recovered from panic:"; r]]) σ
     else σ).
Proof.
  intros Hbody Hr. unfold with_defer. rewrite Hbody.
  rewrite (BreakOnError_recovers r); [|reflexivity|assumption].
  destruct (ERROR G =? 1); simpl.
  - by rewrite set_panicking_restore.
  - by rewrite set_panicking_restore_silent.
Qed.

Lemma with_defer_logger_BreakOnError {A} self (body : M A) r σ0 σ :
  body σ0 = (Panics r, σ) →
  with_defer (logger_BreakOnError self) body σ0 = (Panics r, σ).
Proof.
  intros Hbody. unfold with_defer. rewrite Hbody, logger_BreakOnError_inert.
  simpl. by rewrite set_panicking_undo.
Qed.


(** ** The heap of logger structs is never written *)

Lemma ph_ret {A} (a : A) : preserves_heap (mret a).
Proof. intros σ. reflexivity. Qed.

Lemma ph_bind {A B} (m : M A) (k : A → M B) :
  preserves_heap m → (∀ a, preserves_heap (k a)) → preserves_heap (m ≫= k).
Proof.
  intros Hm Hk σ. unfold mbind, M_bind.
  specialize (Hm σ). destruct (m σ) as [[a|r] σ']; simpl in *.
  - by rewrite Hk.
  - done.
Qed.

Lemma ph_panic {A} r : preserves_heap (@panic A r).
Proof. intros σ. reflexivity. Qed.

Lemma ph_Println a : preserves_heap (Println a).
Proof. intros σ. reflexivity. Qed.

Lemma ph_time_Now : preserves_heap time_Now.
Proof. intros σ. reflexivity. Qed.

Lemma ph_load self : preserves_heap (load self).
Proof. intros σ. unfold load. by destruct (heap σ !! self). Qed.

Lemma ph_recover c : preserves_heap (recover c).
Proof. intros σ. unfold recover. by destruct c, (panicking σ). Qed.

Lemma ph_if {A} (b : bool) (m1 m2 : M A) :
  preserves_heap m1 → preserves_heap m2 → preserves_heap (if b then m1 else m2).
Proof. by destruct b. Qed.

Lemma ph_range {A} (xs : list A) body :
  (∀ x, preserves_heap (body x)) → preserves_heap (range xs body).
Proof.
  intros Hbody. induction xs as [|x xs IH]; simpl.
  - apply ph_ret.
  - apply ph_bind; [apply Hbody | intros _; exact IH].
Qed.

Create HintDb heapdb.

#[local] Hint Resolve ph_ret ph_bind ph_panic ph_Println ph_time_Now ph_load
  ph_recover ph_if ph_range : heapdb.

Ltac preserves :=
  repeat first
    [ progress intros
    | apply ph_if
    | apply ph_bind
    | apply ph_range
    | solve [auto with heapdb] ].

Lemma ph_D v : preserves_heap (D v).
Proof. unfold D. preserves. Qed.

Lemma ph_W v : preserves_heap (W v).
Proof. unfold W. preserves. Qed.

Lemma ph_E v : preserves_heap (E v).
Proof. unfold E. preserves. Qed.

#[local] Hint Resolve ph_D ph_W ph_E : heapdb.

Lemma ph_formatMessage self : preserves_heap (formatMessage self).
Proof. unfold formatMessage. preserves. Qed.

#[local] Hint Resolve ph_formatMessage : heapdb.

Lemma ph_CheckW err v : preserves_heap (CheckW err v).
Proof. unfold CheckW. preserves. Qed.

#[local] Hint Resolve ph_CheckW : heapdb.

Lemma ph_BreakOnError c : preserves_heap (BreakOnError c).
Proof. unfold BreakOnError. preserves. Qed.

#[local] Hint Resolve ph_BreakOnError : heapdb.

Lemma ph_invoke r op : preserves_heap (invoke r op).
Proof.
  destruct r, op; simpl;
    unfold logger_D, logger_W, logger_E, logger_CheckW, logger_CheckE,
      logger_CheckMultiE, logger_BreakOnError, CheckE, CheckMultiE;
    preserves.
Qed.

Lemma run_heap calls σ : heap (run calls σ) = heap σ.
Proof.
  unfold run. revert σ. induction calls as [|c calls IH]; intros σ; simpl.
  - reflexivity.
  - rewrite IH. apply ph_invoke.
Qed.

Lemma Logger_run tag0 d0 w0 e0 tf σ :
  let self := fresh (dom (heap σ)) in
  let l := mk_logger tag0 d0 w0 e0 (default "" (head tf)) in
  Logger tag0 d0 w0 e0 tf σ
  = (Returns self,
     mk_world (stdout σ) (clock σ) (<[self := l]> (heap σ)) (panicking σ))
  ∧ heap σ !! self = None.
Proof.
  split.
  - unfold Logger, alloc. destruct tf; reflexivity.
  - apply not_elem_of_dom, is_fresh.
Qed.

(** C8. No operation of the facility, free or method, changes any logger
    struct: after any sequence of [D], [W], [E], [CheckW], [CheckE],
    [CheckMultiE] and [BreakOnError] calls, an instance made by [Logger]
    still has the tag, the three flags and the time format it was made
    with. *)
Theorem logger_fields_never_change tag0 d0 w0 e0 tf calls σ :
  (∀ r op σ', heap (snd (invoke r op σ')) = heap σ')
  ∧ (∀ (p : loc) σ', heap (run calls σ') !! p = heap σ' !! p)
  ∧ ∃ self σ1,
      Logger tag0 d0 w0 e0 tf σ = (Returns self, σ1)
      ∧ heap σ !! self = None
      ∧ heap (run calls σ1) !! self
        = Some (mk_logger tag0 d0 w0 e0 (default "" (head tf))).
Proof.
  split_and!.
  - intros r op σ'. apply ph_invoke.
  - intros p σ'. by rewrite run_heap.
  - destruct (Logger_run tag0 d0 w0 e0 tf σ) as [HL Hfresh].
    eexists _, _. split_and!; [exact HL | exact Hfresh |].
    rewrite run_heap. simpl. apply lookup_insert_eq.
Qed.

(** ** Receivers that point to no struct *)

Lemma bind_panics {A B} (m : M A) (k : A → M B) σ r σ' :
  m σ = (Panics r, σ') → (m ≫= k) σ = (Panics r, σ').
Proof. intros H. unfold mbind, M_bind. rewrite H. reflexivity. Qed.

Lemma load_nil self σ :
  heap σ !! self = None → load self σ = (Panics nil_dereference, σ).
Proof. intros H. unfold load. rewrite H. reflexivity. Qed.

Lemma logger_CheckE_nil_receiver self err v σ :
  heap σ !! self = None →
  logger_CheckE self err v σ
  = (if not_nil err then Panics nil_dereference else Returns tt, σ).
Proof.
  intros H. unfold logger_CheckE. destruct (not_nil err); [|reflexivity].
  by rewrite (bind_panics _ _ _ _ _ (load_nil _ _ H)).
Qed.

Lemma logger_CheckMultiE_nil_receiver self errs v σ :
  heap σ !! self = None →
  logger_CheckMultiE self errs v σ
  = (if not_nil (findFirstError errs) then Panics nil_dereference
     else Returns tt, σ).
Proof.
  intros H. unfold logger_CheckMultiE.
  destruct (not_nil (findFirstError errs)); [|reflexivity].
  by rewrite (bind_panics _ _ _ _ _ (load_nil _ _ H)).
Qed.

Lemma logger_D_nil_receiver self v σ :
  heap σ !! self = None → logger_D self v σ = (Panics nil_dereference, σ).
Proof.
  intros H. unfold logger_D. by rewrite (bind_panics _ _ _ _ _ (load_nil _ _ H)).
Qed.

Lemma logger_W_nil_receiver self v σ :
  heap σ !! self = None → logger_W self v σ = (Panics nil_dereference, σ).
Proof.
  intros H. unfold logger_W. by rewrite (bind_panics _ _ _ _ _ (load_nil _ _ H)).
Qed.

Lemma logger_E_nil_receiver self v σ :
  heap σ !! self = None → logger_E self v σ = (Panics nil_dereference, σ).
Proof.
  intros H. unfold logger_E. by rewrite (bind_panics _ _ _ _ _ (load_nil _ _ H)).
Qed.

Lemma logger_CheckW_nil_receiver self err v σ :
  heap σ !! self = None →
  logger_CheckW self err v σ = (Panics nil_dereference, σ).
Proof.
  intros H. unfold logger_CheckW.
  by rewrite (bind_panics _ _ _ _ _ (load_nil _ _ H)).
Qed.

(** X3. A method called through a pointer that points to no logger struct
    (a nil receiver): [D], [W], [E] and [CheckW] panic on their first field
    read with the run-time nil-dereference error and write nothing;
    [CheckE] and [CheckMultiE] do so only once they have found a non-nil
    error, and the payload is then the run-time error and not the error
    they were given; [BreakOnError] reads no field and returns. *)
Theorem nil_receiver_behaviour self err errs v c σ :
  heap σ !! self = None →
  logger_D self v σ = (Panics nil_dereference, σ)
  ∧ logger_W self v σ = (Panics nil_dereference, σ)
  ∧ logger_E self v σ = (Panics nil_dereference, σ)
  ∧ logger_CheckW self err v σ = (Panics nil_dereference, σ)
  ∧ logger_CheckE self err v σ
    = (if not_nil err then Panics nil_dereference else Returns tt, σ)
  ∧ logger_CheckMultiE self errs v σ
    = (if not_nil (findFirstError errs) then Panics nil_dereference
       else Returns tt, σ)
  ∧ logger_BreakOnError self c σ = (Returns tt, σ).
Proof.
  intros H. split_and!.
  - by apply logger_D_nil_receiver.
  - by apply logger_W_nil_receiver.
  - by apply logger_E_nil_receiver.
  - by apply logger_CheckW_nil_receiver.
  - by apply logger_CheckE_nil_receiver.
  - by apply logger_CheckMultiE_nil_receiver.
  - apply logger_BreakOnError_inert.
Qed.

(** X4. [CheckE], free or method, panics if and only if the error is
    non-nil. With a nil error it returns and leaves the world as it was,
    whatever the flags and whatever the receiver, a nil receiver
    included. *)
Theorem CheckE_panics_iff_error self l err v σ :
  heap σ !! self = Some l →
  ((∃ r, fst (CheckE err v σ) = Panics r) ↔ err ≠ None)
  ∧ ((∃ r, fst (logger_CheckE self err v σ) = Panics r) ↔ err ≠ None)
  ∧ CheckE None v σ = (Returns tt, σ)
  ∧ (∀ p, logger_CheckE p None v σ = (Returns tt, σ)).
Proof.
  intros H. destruct err as [x|].
  - rewrite CheckE_run, (logger_CheckE_run _ _ _ _ _ H). simpl.
    split_and!; try done; split; try done; by eexists.
  - split_and!; try done; split; try done; by intros [r ?].
Qed.

(** ** Method forms against free forms *)

(** X5. The method forms of the check helpers against the free forms, for
    an instance with tag [t]. With its level flag at 1 the method does what
    the free function does on the arguments with the text "[t]" put in
    front. With the flag at any other value [CheckW] only reports whether
    the error is non-nil, and [CheckE] and [CheckMultiE] only panic (or
    return, when there is no error), writing nothing. *)
Theorem method_checks_delegate self l err errs v σ :
  heap σ !! self = Some l →
  let p := Str ("[" +:+ tag l +:+ "]") in
  logger_CheckW self err v σ
  = (if w l =? 1 then CheckW err (p :: v) σ
     else (Returns (not_nil err), σ))
  ∧ logger_CheckE self err v σ
    = (if e l =? 1 then CheckE err (p :: v) σ
       else (if not_nil err then Panics (of_error err) else Returns tt, σ))
  ∧ logger_CheckMultiE self errs v σ
    = (if e l =? 1 then CheckMultiE errs (p :: v) σ
       else (match findFirstError errs with
             | Some x => Panics (Err x)
             | None => Returns tt
             end, σ)).
Proof.
  intros H p. subst p. split_and!.
  - rewrite (logger_CheckW_run _ _ _ _ _ H), CheckW_run.
    destruct (w l =? 1), err; reflexivity.
  - destruct err as [x|].
    + rewrite (logger_CheckE_run _ _ _ _ _ H), CheckE_run.
      destruct (e l =? 1); reflexivity.
    + destruct (e l =? 1); reflexivity.
  - rewrite (logger_CheckMultiE_run _ _ _ _ _ H), CheckMultiE_run.
    destruct (e l =? 1); simpl; [reflexivity|].
    by rewrite writes_nil.
Qed.

(** X6. Checking a slice that holds one error is checking that error:
    [CheckMultiE] on a one-element slice and [CheckE] on its element have
    the same outcome and write the same lines, in the free and in the
    method form, for every receiver. *)
Theorem CheckMultiE_singleton self err v σ :
  CheckMultiE [err] v σ = CheckE err v σ
  ∧ logger_CheckMultiE self [err] v σ = logger_CheckE self err v σ.
Proof.
  split.
  - destruct err as [x|]; [|reflexivity].
    rewrite CheckMultiE_run, CheckE_run. simpl.
    destruct (ERROR G =? 1); [reflexivity | by rewrite writes_nil].
  - destruct (heap σ !! self) as [l|] eqn:H.
    + destruct err as [x|]; [|reflexivity].
      rewrite (logger_CheckMultiE_run _ _ _ _ _ H), (logger_CheckE_run _ _ _ _ _ H).
      simpl. destruct (_ && _); [reflexivity | by rewrite writes_nil].
    + rewrite (logger_CheckMultiE_nil_receiver _ _ _ _ H),
        (logger_CheckE_nil_receiver _ _ _ _ H).
      by destruct err.
Qed.

(** ** Slices of errors *)

Lemma findFirstError_head errs :
  findFirstError errs = head (non_nil_entries errs).
Proof.
  induction errs as [|[y|] errs IH]; simpl; [reflexivity | reflexivity | exact IH].
Qed.

Lemma non_nil_entries_fmap_Some (xs : list err_val) :
  non_nil_entries (Some <$> xs) = xs.
Proof.
  unfold non_nil_entries. induction xs as [|x xs IH]; [reflexivity|].
  cbn. f_equal. exact IH.
Qed.

Lemma length_non_nil_entries errs :
  (length (non_nil_entries errs) ≤ length errs)%nat.
Proof.
  induction errs as [|[y|] errs IH]; simpl; [lia | |].
  - unfold non_nil_entries in *. simpl. lia.
  - unfold non_nil_entries in *. simpl. lia.
Qed.

(** X8. [findFirstError] on two slices put end to end gives the first
    non-nil error of the front slice if it has one, and otherwise that of
    the back slice; its result is the head of the non-nil entries; and an
    error it returns is an entry of the slice. *)
Theorem findFirstError_laws a b errs :
  findFirstError (a ++ b)
  = match findFirstError a with
    | Some y => Some y
    | None => findFirstError b
    end
  ∧ findFirstError errs = head (non_nil_entries errs)
  ∧ (∀ x, findFirstError errs = Some x → Some x ∈ errs)
  ∧ (findFirstError errs = None ↔ ∀ x, Some x ∉ errs).
Proof.
  split_and!.
  - induction a as [|[y|] a IH]; simpl; [by destruct (findFirstError b) | done | exact IH].
  - apply findFirstError_head.
  - intros x Hx. apply findFirstError_Some in Hx as (pre & post & -> & _).
    set_solver.
  - rewrite findFirstError_None, Forall_forall. split.
    + intros Hn x Hx. by apply Hn in Hx.
    + intros Hn [y|] Hy; [by apply Hn in Hy | reflexivity].
Qed.

(** X7. The nil entries of the slice play no part in [CheckMultiE]: on a
    slice and on the slice of its non-nil entries alone it has the same
    outcome and writes the same lines, in the free and in the method form,
    for every receiver. *)
Theorem CheckMultiE_skips_nil_entries self errs v σ :
  CheckMultiE errs v σ = CheckMultiE (Some <$> non_nil_entries errs) v σ
  ∧ logger_CheckMultiE self errs v σ
    = logger_CheckMultiE self (Some <$> non_nil_entries errs) v σ.
Proof.
  assert (Hf : findFirstError (Some <$> non_nil_entries errs)
               = findFirstError errs).
  { by rewrite !findFirstError_head, non_nil_entries_fmap_Some. }
  split.
  - by rewrite !CheckMultiE_run, Hf, non_nil_entries_fmap_Some.
  - destruct (heap σ !! self) as [l|] eqn:H.
    + by rewrite !(logger_CheckMultiE_run _ _ _ _ _ H), Hf,
        non_nil_entries_fmap_Some.
    + by rewrite !(logger_CheckMultiE_nil_receiver _ _ _ _ H), Hf.
Qed.

(** ** What a call writes *)

Lemma BreakOnError_run c σ :
  BreakOnError c σ
  = match c, panicking σ with
    | ByDefer, Some r =>
        (Returns tt,
         if non_nil r && (ERROR G =? 1)
         then write (Sprintln [Str "[ERR]";
                               Slice [Str "Recovered from panic:"; r]])
                (set_panicking None σ)
         else set_panicking None σ)
    | _, _ => (Returns tt, σ)
    end.
Proof.
  unfold BreakOnError, recover, mbind, M_bind.
  destruct c, (panicking σ) as [r|]; try reflexivity.
  destruct (non_nil r); simpl; [|reflexivity].
  rewrite E_run. destruct (ERROR G =? 1); reflexivity.
Qed.

Lemma wrote_refl level n σ : wrote level n σ σ.
Proof.
  exists []. split_and!; [by rewrite app_nil_r | constructor | simpl; lia | done].
Qed.

Lemma wrote_if (b : bool) level args n σ :
  (1 ≤ n)%nat →
  wrote level n σ (if b then write (Sprintln [Str level; Slice args]) σ else σ).
Proof.
  intros Hn. destruct b; [|apply wrote_refl].
  exists [Sprintln [Str level; Slice args]]. split_and!; try done.
  repeat constructor. eexists. apply Sprintln_level.
Qed.

Lemma wrote_writes {X} (b : bool) level (args : X → list iface) xs n σ :
  (length xs ≤ n)%nat →
  wrote level n σ
    (writes (if b then map (λ x, Sprintln [Str level; Slice (args x)]) xs
             else []) σ).
Proof.
  intros Hn. destruct b; [|rewrite writes_nil; apply wrote_refl].
  eexists. split_and!; [reflexivity | | by rewrite length_map | done].
  apply Forall_forall. intros line [x [-> _]]%list_elem_of_fmap.
  eexists. apply Sprintln_level.
Qed.

Lemma wrote_recovered level n r σ σ' :
  wrote level n (set_panicking r σ) σ' → wrote level n σ σ'.
Proof. by destruct σ. Qed.

Lemma level_of_known op : level_of op ∈ ["[DBG]"; "[WRN]"; "[ERR]"].
Proof. destruct op; simpl; set_solver. Qed.

Lemma invoke_wrote r op σ :
  wrote (level_of op) (max_lines op) σ (snd (invoke r op σ)).
Proof.
  destruct r as [|self]; [|destruct (heap σ !! self) as [l|] eqn:H];
    destruct op as [v|v|v|err v|err v|errs v|c]; simpl.
  - rewrite D_run. by apply wrote_if.
  - rewrite W_run. by apply wrote_if.
  - rewrite E_run. by apply wrote_if.
  - rewrite (bind_returns _ _ _ _ _ (CheckW_run _ _ _)). simpl.
    destruct err; [by apply wrote_if | apply wrote_refl].
  - destruct err as [x|]; [|apply wrote_refl].
    rewrite CheckE_run. by apply wrote_if.
  - rewrite CheckMultiE_run. apply wrote_writes, length_non_nil_entries.
  - rewrite BreakOnError_run. destruct c, (panicking σ) as [r|];
      try apply wrote_refl.
    simpl. apply (wrote_recovered _ _ None). destruct σ. by apply wrote_if.
  - rewrite (logger_D_run _ _ _ _ H), D_run.
    destruct (d l =? 1); [by apply wrote_if | apply wrote_refl].
  - rewrite (logger_W_run _ _ _ _ H), W_run.
    destruct (w l =? 1); [by apply wrote_if | apply wrote_refl].
  - rewrite (logger_E_run _ _ _ _ H), E_run.
    destruct (e l =? 1); [by apply wrote_if | apply wrote_refl].
  - rewrite (bind_returns _ _ _ _ _ (logger_CheckW_run _ _ _ _ _ H)). simpl.
    destruct err; [by apply wrote_if | apply wrote_refl].
  - destruct err as [x|]; [|apply wrote_refl].
    rewrite (logger_CheckE_run _ _ _ _ _ H). by apply wrote_if.
  - rewrite (logger_CheckMultiE_run _ _ _ _ _ H).
    apply wrote_writes, length_non_nil_entries.
  - apply wrote_refl.
  - rewrite (logger_D_nil_receiver _ _ _ H). apply wrote_refl.
  - rewrite (logger_W_nil_receiver _ _ _ H). apply wrote_refl.
  - rewrite (logger_E_nil_receiver _ _ _ H). apply wrote_refl.
  - rewrite (bind_panics _ _ _ _ _ (logger_CheckW_nil_receiver _ _ _ _ H)).
    apply wrote_refl.
  - rewrite (logger_CheckE_nil_receiver _ _ _ _ H). apply wrote_refl.
  - rewrite (logger_CheckMultiE_nil_receiver _ _ _ _ H). apply wrote_refl.
  - apply wrote_refl.
Qed.

(** X9. One call of any operation, free or method, on any receiver and
    under any flags, only adds to the end of standard output: the lines
    that were there stay, each line added is the level tag of the
    operation ([DBG] for [D], [WRN] for [W] and [CheckW], [ERR] for the
    rest), a space, and a bracketed argument list with a newline; at most
    one line is added, or for [CheckMultiE] at most one per entry of the
    slice. The clock and the logger structs are not touched. *)
Theorem call_only_appends_tagged_lines r op σ :
  ∃ ls,
    stdout (snd (invoke r op σ)) = stdout σ ++ ls
    ∧ Forall (λ line, ∃ body,
                line = level_of op +:+ " [" +:+ body +:+ "]" +:+ newline) ls
    ∧ (length ls ≤ max_lines op)%nat
    ∧ clock (snd (invoke r op σ)) = clock σ
    ∧ heap (snd (invoke r op σ)) = heap σ.
Proof.
  destruct (invoke_wrote r op σ) as (ls & Hout & Hshape & Hlen & Hclock).
  exists ls. split_and!; try done. apply ph_invoke.
Qed.

(** X10. Over any sequence of calls standard output is append-only: what
    was written before the sequence is a prefix of what is there after it,
    and every line added has one of the three level tags followed by a
    bracketed argument list and a newline. The clock does not move. *)
Theorem log_is_append_only calls σ :
  ∃ ls,
    stdout (run calls σ) = stdout σ ++ ls
    ∧ Forall facility_line ls
    ∧ clock (run calls σ) = clock σ.
Proof.
  unfold run. revert σ. induction calls as [|[r op] calls IH]; intros σ; simpl.
  - exists []. split_and!; [by rewrite app_nil_r | constructor | done].
  - destruct (IH (snd (invoke r op σ))) as (ls2 & Hout2 & Hshape2 & Hclock2).
    destruct (invoke_wrote r op σ) as (ls1 & Hout1 & Hshape1 & _ & Hclock1).
    exists (ls1 ++ ls2). split_and!.
    + by rewrite Hout2, Hout1, app_assoc.
    + apply Forall_app. split; [|exact Hshape2].
      eapply Forall_impl; [exact Hshape1|].
      intros line [body ->]. exists (level_of op), body.
      split; [apply level_of_known | reflexivity].
    + by rewrite Hclock2, Hclock1.
Qed.

(** ** Gating of every operation *)

Lemma unchanged_if_off (x : Z) line σ :
  stdout (if x =? 1 then write line σ else σ) ≠ stdout σ → x = 1.
Proof. destruct (Z.eqb_spec x 1); done. Qed.

Lemma unchanged_if_both_off (x y : Z) line σ :
  stdout (if (x =? 1) && (y =? 1) then write line σ else σ) ≠ stdout σ →
  x = 1 ∧ y = 1.
Proof. destruct (Z.eqb_spec x 1), (Z.eqb_spec y 1); done. Qed.

Lemma unchanged_writes_off (x : Z) ls σ :
  stdout (writes (if x =? 1 then ls else []) σ) ≠ stdout σ → x = 1.
Proof.
  destruct (Z.eqb_spec x 1); [done|]. rewrite writes_nil. done.
Qed.

Lemma unchanged_writes_both_off (x y : Z) ls σ :
  stdout (writes (if (x =? 1) && (y =? 1) then ls else []) σ) ≠ stdout σ →
  x = 1 ∧ y = 1.
Proof.
  destruct (Z.eqb_spec x 1), (Z.eqb_spec y 1); simpl;
    rewrite ?app_nil_r; done.
Qed.

Lemma invoke_written r op σ :
  stdout (snd (invoke r op σ)) ≠ stdout σ →
  global_flag op = 1
  ∧ ∀ self l, r = Method self → heap σ !! self = Some l →
              instance_flag l op = 1.
Proof.
  destruct r as [|self]; [|destruct (heap σ !! self) as [l|] eqn:H];
    destruct op as [v|v|v|err v|err v|errs v|c]; simpl.
  - rewrite D_run. intros ?%unchanged_if_off. done.
  - rewrite W_run. intros ?%unchanged_if_off. done.
  - rewrite E_run. intros ?%unchanged_if_off. done.
  - rewrite (bind_returns _ _ _ _ _ (CheckW_run _ _ _)). simpl.
    destruct err; [|done]. intros ?%unchanged_if_off. done.
  - destruct err as [x|]; [|done].
    rewrite CheckE_run. intros ?%unchanged_if_off. done.
  - rewrite CheckMultiE_run. intros ?%unchanged_writes_off. done.
  - rewrite BreakOnError_run. destruct c, (panicking σ) as [r|]; try done.
    destruct (non_nil r); simpl; [|by destruct σ].
    destruct (Z.eqb_spec (ERROR G) 1); [done | by destruct σ].
  - rewrite (logger_D_run _ _ _ _ H), D_run.
    destruct (Z.eqb_spec (d l) 1) as [Hd|]; [|done].
    intros ?%unchanged_if_off. split; [done|]. intros ? ? [= <-] Hl; rewrite H in Hl; by injection Hl as <-.
  - rewrite (logger_W_run _ _ _ _ H), W_run.
    destruct (Z.eqb_spec (w l) 1) as [Hd|]; [|done].
    intros ?%unchanged_if_off. split; [done|]. intros ? ? [= <-] Hl; rewrite H in Hl; by injection Hl as <-.
  - rewrite (logger_E_run _ _ _ _ H), E_run.
    destruct (Z.eqb_spec (e l) 1) as [Hd|]; [|done].
    intros ?%unchanged_if_off. split; [done|]. intros ? ? [= <-] Hl; rewrite H in Hl; by injection Hl as <-.
  - rewrite (bind_returns _ _ _ _ _ (logger_CheckW_run _ _ _ _ _ H)). simpl.
    destruct err; [|done]. intros [? ?]%unchanged_if_both_off.
    split; [done|]. intros ? ? [= <-] Hl; rewrite H in Hl; by injection Hl as <-.
  - destruct err as [x|]; [|done].
    rewrite (logger_CheckE_run _ _ _ _ _ H).
    intros [? ?]%unchanged_if_both_off.
    split; [done|]. intros ? ? [= <-] Hl; rewrite H in Hl; by injection Hl as <-.
  - rewrite (logger_CheckMultiE_run _ _ _ _ _ H).
    intros [? ?]%unchanged_writes_both_off.
    split; [done|]. intros ? ? [= <-] Hl; rewrite H in Hl; by injection Hl as <-.
  - done.
  - by rewrite (logger_D_nil_receiver _ _ _ H).
  - by rewrite (logger_W_nil_receiver _ _ _ H).
  - by rewrite (logger_E_nil_receiver _ _ _ H).
  - by rewrite (bind_panics _ _ _ _ _ (logger_CheckW_nil_receiver _ _ _ _ H)).
  - by rewrite (logger_CheckE_nil_receiver _ _ _ _ H).
  - by rewrite (logger_CheckMultiE_nil_receiver _ _ _ _ H).
  - done.
Qed.

(** X12. No operation writes unless its level is switched on: if a call
    changes standard output, then the global flag of the operation's level
    is 1, and for a method called on an instance the instance's flag of
    that level is 1 too. So an instance whose flag for a level is not 1
    never writes through the methods of that level, whatever the global
    flags. *)
Theorem writes_only_when_enabled r op σ :
  (stdout (snd (invoke r op σ)) ≠ stdout σ →
   global_flag op = 1
   ∧ ∀ self l, r = Method self → heap σ !! self = Some l →
               instance_flag l op = 1)
  ∧ (global_flag op ≠ 1 → stdout (snd (invoke r op σ)) = stdout σ)
  ∧ (∀ self l, r = Method self → heap σ !! self = Some l →
       instance_flag l op ≠ 1 → stdout (snd (invoke r op σ)) = stdout σ).
Proof.
  split_and!.
  - apply invoke_written.
  - intros Hoff.
    destruct (decide (stdout (snd (invoke r op σ)) = stdout σ)) as [|Hne];
      [done|].
    by apply invoke_written in Hne as [? _].
  - intros self l -> H Hoff.
    destruct (decide (stdout (snd (invoke (Method self) op σ)) = stdout σ))
      as [|Hne]; [done|].
    apply invoke_written in Hne as [_ Hi]. by specialize (Hi self l eq_refl H).
Qed.

(** X13. With the three global flags all different from 1, no sequence of
    calls, free or method, writes anything to standard output. *)
Theorem all_levels_off_is_silent calls σ :
  DEBUG G ≠ 1 → WARN G ≠ 1 → ERROR G ≠ 1 →
  stdout (run calls σ) = stdout σ.
Proof.
  intros HD HW HE. unfold run. revert σ.
  induction calls as [|[r op] calls IH]; intros σ; simpl; [done|].
  rewrite IH.
  destruct (decide (stdout (snd (invoke r op σ)) = stdout σ)) as [|Hne];
    [done|].
  apply invoke_written in Hne as [Hflag _]. by destruct op.
Qed.

(** ** Construction *)

(** X1. [Logger] always returns. Its pointer is new: it pointed to no
    struct before, and after the call it points to a struct with the tag
    and flags given and, as time format, the first of the optional
    arguments, or the empty string when there is none. Every other pointer
    points to what it pointed to before, and standard output, the clock
    and a panic in flight are as they were. *)
Theorem Logger_allocates_fresh tag0 d0 w0 e0 tf σ :
  ∃ self σ1,
    Logger tag0 d0 w0 e0 tf σ = (Returns self, σ1)
    ∧ heap σ !! self = None
    ∧ heap σ1 !! self = Some (mk_logger tag0 d0 w0 e0 (default "" (head tf)))
    ∧ (∀ p, p ≠ self → heap σ1 !! p = heap σ !! p)
    ∧ stdout σ1 = stdout σ
    ∧ clock σ1 = clock σ
    ∧ panicking σ1 = panicking σ.
Proof.
  destruct (Logger_run tag0 d0 w0 e0 tf σ) as [HL Hfresh].
  eexists _, _. split_and!; [exact HL | exact Hfresh | | | done | done | done].
  - simpl. apply lookup_insert_eq.
  - intros p Hp. simpl. by apply lookup_insert_ne.
Qed.

(** X2. The prefix of a freshly made instance: [formatMessage] on the
    pointer [Logger] returned gives the bracketed tag alone when no time
    format was passed or the first one passed is the empty string, and
    otherwise the bracketed rendering of the clock in the first time format
    followed by the bracketed tag; time formats after the first are not
    used. *)
Theorem Logger_then_formatMessage tag0 d0 w0 e0 tf σ :
  ∃ self σ1,
    Logger tag0 d0 w0 e0 tf σ = (Returns self, σ1)
    ∧ formatMessage self σ1
      = (Returns match tf with
                 | t :: _ =>
                     if decide (t = "") then "[" +:+ tag0 +:+ "]"
                     else "[" +:+ time_Format (clock σ) t +:+ "]["
                          +:+ tag0 +:+ "]"
                 | [] => "[" +:+ tag0 +:+ "]"
                 end, σ1).
Proof.
  destruct (Logger_run tag0 d0 w0 e0 tf σ) as [HL _].
  eexists _, _. split; [exact HL|].
  erewrite formatMessage_run; [|simpl; apply lookup_insert_eq].
  rewrite formatMessage_spec_prefix. unfold spec_prefix. simpl.
  destruct tf as [|t tf]; simpl; [reflexivity|].
  destruct (decide (t = "")); reflexivity.
Qed.

(** ** Deferred recovery *)

Lemma set_panicking_clear_undo σ :
  set_panicking (panicking σ) (set_panicking None σ) = σ.
Proof. by destruct σ. Qed.

Lemma write_after_writes line ls σ :
  write line (writes ls σ) = writes (ls ++ [line]) σ.
Proof. unfold write, writes. simpl. by rewrite <- app_assoc. Qed.

Lemma with_defer_BreakOnError_return {A} (body : M A) a σ0 σ :
  body σ0 = (Returns a, σ) →
  with_defer BreakOnError body σ0 = (Returns (Some a), σ).
Proof.
  intros Hbody. unfold with_defer. rewrite Hbody.
  rewrite BreakOnError_idle; [|reflexivity].
  by rewrite set_panicking_clear_undo.
Qed.

(** X14. A function that deferred the free [BreakOnError] and whose body
    returns without panicking returns the body's result, and the deferred
    call writes nothing and changes nothing. *)
Theorem deferred_BreakOnError_on_return {A} (body : M A) a σ0 σ :
  body σ0 = (Returns a, σ) →
  with_defer BreakOnError body σ0 = (Returns (Some a), σ).
Proof.
  apply with_defer_BreakOnError_return.
Qed.

(** X15. A panic is recovered once. When a function that deferred the free
    [BreakOnError] is called from another function that deferred it too,
    and the inner body panics with a non-nil payload, the inner deferred
    call recovers and logs the panic, and the outer one finds nothing to
    recover: one recovery line at most is written and the outer function
    returns. *)
Theorem panic_is_recovered_once {A} (body : M A) r σ0 σ :
  body σ0 = (Panics r, σ) →
  r ≠ Nil →
  with_defer BreakOnError (with_defer BreakOnError body) σ0
  = (Returns (Some None),
     if ERROR G =? 1
     then write (Sprintln [Str "[ERR]";
                           Slice [Str "Recovered from panic:"; r]]) σ
     else σ).
Proof.
  intros Hbody Hr.
  apply with_defer_BreakOnError_return.
  by apply with_defer_BreakOnError.
Qed.

(** X16. Failing fast and recovering, end to end: a function that
    deferred the free [BreakOnError] and whose body is a free [CheckE] on a
    non-nil error, or a free [CheckMultiE] on a slice with a non-nil entry,
    returns instead of panicking. When [ERROR] is 1 standard output gains
    the error lines of the check, in slice order, and after them one
    recovery line that names the first non-nil error; when [ERROR] is not
    1 it gains nothing. *)
Theorem check_then_recover x errs v σ :
  findFirstError errs = Some x →
  let recovery :=
    Sprintln [Str "[ERR]"; Slice [Str "Recovered from panic:"; Err x]] in
  with_defer BreakOnError (CheckE (Some x) v) σ
  = (Returns None,
     writes (if ERROR G =? 1
             then [Sprintln [Str "[ERR]"; Slice (v ++ [Err x])]; recovery]
             else []) σ)
  ∧ with_defer BreakOnError (CheckMultiE errs v) σ
    = (Returns None,
       writes (if ERROR G =? 1
               then map (λ y, Sprintln [Str "[ERR]"; Slice (v ++ [Err y])])
                        (non_nil_entries errs) ++ [recovery]
               else []) σ).
Proof.
  intros Hfirst recovery. subst recovery. split.
  - rewrite (with_defer_BreakOnError _ (Err x) σ _ (CheckE_run x v σ));
      [|done].
    destruct (ERROR G =? 1); [|by rewrite writes_nil].
    unfold write, writes. simpl. by rewrite <- app_assoc.
  - assert (Hbody := CheckMultiE_run errs v σ). rewrite Hfirst in Hbody.
    rewrite (with_defer_BreakOnError _ (Err x) σ _ Hbody); [|done].
    destruct (ERROR G =? 1); [|done].
    by rewrite write_after_writes.
Qed.

(** X17. Deferring the [BreakOnError] method changes nothing about a
    function: whatever the receiver and the body, the function returns
    what the body returns or panics with what the body panics with, and
    the world is the one the body left. The method calls the free function
    by an ordinary call, and there [recover] finds nothing. *)
Theorem deferred_method_is_inert {A} self (body : M A) σ0 :
  with_defer (logger_BreakOnError self) body σ0
  = (match fst (body σ0) with
     | Returns a => Returns (Some a)
     | Panics r => Panics r
     end, snd (body σ0)).
Proof.
  unfold with_defer. destruct (body σ0) as [[a|r] σ];
    rewrite logger_BreakOnError_inert; simpl.
  - by rewrite set_panicking_clear_undo.
  - by rewrite set_panicking_undo.
Qed.

End Facility.

(** ** Levels and control flow *)

(** X11. The level flags and the time format decide what is printed and
    nothing else: under any two settings of [DEBUG], [WARN] and [ERROR],
    and any two renderings of time, a call of any operation from the same
    world returns or panics alike, with the same payload, and leaves the
    same logger structs, clock and panic in flight. *)
Theorem levels_do_not_steer_control G G' tf tf' r op σ :
  fst (invoke G tf r op σ) = fst (invoke G' tf' r op σ)
  ∧ heap (snd (invoke G tf r op σ)) = heap (snd (invoke G' tf' r op σ))
  ∧ clock (snd (invoke G tf r op σ)) = clock (snd (invoke G' tf' r op σ))
  ∧ panicking (snd (invoke G tf r op σ))
    = panicking (snd (invoke G' tf' r op σ)).
Proof.
  destruct r as [|self]; [|destruct (heap σ !! self) as [l|] eqn:H];
    destruct op as [v|v|v|err v|err v|errs v|c]; simpl;
    try destruct err as [x|];
    rewrite ?D_run, ?W_run, ?E_run, ?CheckE_run, ?CheckMultiE_run,
      ?BreakOnError_run,
      ?(bind_returns _ _ _ _ _ (CheckW_run _ _ _ _)),
      ?(logger_D_run _ _ _ _ _ _ H), ?(logger_W_run _ _ _ _ _ _ H),
      ?(logger_E_run _ _ _ _ _ _ H), ?D_run, ?W_run, ?E_run,
      ?(bind_returns _ _ _ _ _ (logger_CheckW_run _ _ _ _ _ _ H)),
      ?(logger_CheckE_run _ _ _ _ _ _ H),
      ?(logger_CheckMultiE_run _ _ _ _ _ _ H),
      ?(logger_D_nil_receiver _ _ _ _ _ H), ?(logger_W_nil_receiver _ _ _ _ _ H),
      ?(logger_E_nil_receiver _ _ _ _ _ H),
      ?(bind_panics _ _ _ _ _ (logger_CheckW_nil_receiver _ _ _ _ _ H)),
      ?(logger_CheckE_nil_receiver _ _ _ _ _ H),
      ?(logger_CheckMultiE_nil_receiver _ _ _ _ _ H);
    try unfold CheckE; try unfold logger_CheckE;
    simpl; repeat case_match; done.
Qed.

(** X18. As built, with [DEBUG], [WARN] and [ERROR] all 1, the global gate
    is open: every call of the free [D], [W] or [E] writes one line, and a
    method [D], [W] or [E] writes its line exactly when the instance flag
    of its level is 1. *)
Theorem as_built_global_gate_is_open tf self l v σ :
  heap σ !! self = Some l →
  logged σ (snd (D source_levels v σ))
  ∧ logged σ (snd (W source_levels v σ))
  ∧ logged σ (snd (E source_levels v σ))
  ∧ (logged σ (snd (logger_D source_levels tf self v σ)) ↔ d l = 1)
  ∧ (logged σ (snd (logger_W source_levels tf self v σ)) ↔ w l = 1)
  ∧ (logged σ (snd (logger_E source_levels tf self v σ)) ↔ e l = 1).
Proof.
  intros H.
  rewrite (logger_D_run _ _ _ _ _ _ H), (logger_W_run _ _ _ _ _ _ H),
    (logger_E_run _ _ _ _ _ _ H), !D_run, !W_run, !E_run. simpl.
  split_and!; try apply logged_write.
  - destruct (Z.eqb_spec (d l) 1); simpl; split; try done.
    + intros _. apply logged_write.
    + intros HL. destruct (not_logged_same _ HL).
  - destruct (Z.eqb_spec (w l) 1); simpl; split; try done.
    + intros _. apply logged_write.
    + intros HL. destruct (not_logged_same _ HL).
  - destruct (Z.eqb_spec (e l) 1); simpl; split; try done.
    + intros _. apply logged_write.
    + intros HL. destruct (not_logged_same _ HL).
Qed.

(** ** The facility as built: all three global flags are 1 *)

(** C2. With [DEBUG], [WARN] and [ERROR] at 1, [D("hello", "world")] and
    its siblings write the level tag, a space, and then the arguments
    joined by spaces inside a pair of square brackets; this is not the line
    of the specification, which has no brackets around the arguments. *)
Theorem free_log_line_has_brackets :
  let v := [Str "hello"; Str "world"] in
  let σ := mk_world [] 0 ∅ None in
  stdout (snd (D source_levels v σ)) = ["[DBG] [hello world]" +:+ newline]
  ∧ stdout (snd (W source_levels v σ)) = ["[WRN] [hello world]" +:+ newline]
  ∧ stdout (snd (E source_levels v σ)) = ["[ERR] [hello world]" +:+ newline]
  ∧ spec_line "[DBG]" v = "[DBG] hello world" +:+ newline
  ∧ spec_line "[WRN]" v = "[WRN] hello world" +:+ newline
  ∧ spec_line "[ERR]" v = "[ERR] hello world" +:+ newline
  ∧ stdout (snd (D source_levels v σ)) ≠ [spec_line "[DBG]" v]
  ∧ stdout (snd (W source_levels v σ)) ≠ [spec_line "[WRN]" v]
  ∧ stdout (snd (E source_levels v σ)) ≠ [spec_line "[ERR]" v].
Proof. by vm_compute. Qed.

(** C6, as stated, fails: an instance with a time format, asked to check
    a non-nil error with [CheckW], writes a line whose argument list
    begins with the bracketed tag alone, not with the timestamp and tag. *)
Lemma check_helper_line_lacks_timestamp :
  timeFormat sample_logger ≠ ""
  ∧ ∃ line,
      stdout (snd (logger_CheckW source_levels 1%positive (Some boom)
                     [Str "ctx"] sample_world)) = [line]
      ∧ line = "[WRN] [[db] ctx boom]" +:+ newline
      ∧ spec_prefix sample_Format sample_logger (clock sample_world)
        = "[2006-01-02@0][db]"
      ∧ ¬ led_by "[WRN]"
            (spec_prefix sample_Format sample_logger (clock sample_world))
            line.
Proof.
  split; [done|]. eexists. split_and!; [by vm_compute | done | by vm_compute |].
  intros [rest H]. destruct rest as [|a rest]; vm_compute in H; discriminate H.
Qed.

(** C7. A function defers the [BreakOnError] method of its logger and then
    checks a non-nil error with [CheckE]: the panic is not intercepted and
    nothing about a recovery is logged, because [recover] runs in the free
    function, one call below the deferred one. With the free
    [BreakOnError] deferred instead, the same body is recovered and logged.
    With no panic in flight both forms do nothing. *)
Theorem instance_BreakOnError_lets_panic_through :
  let body := logger_CheckE source_levels 1%positive (Some boom) [Str "ctx"] in
  body sample_world = (Panics (Err boom), sample_world)
  ∧ with_defer (logger_BreakOnError source_levels 1%positive) body sample_world
    = (Panics (Err boom), sample_world)
  ∧ with_defer (BreakOnError source_levels) body sample_world
    = (Returns None,
       write ("[ERR] [Recovered from panic: boom]" +:+ newline) sample_world)
  ∧ logger_BreakOnError source_levels 1%positive ByDefer sample_world
    = (Returns tt, sample_world)
  ∧ BreakOnError source_levels ByDefer sample_world
    = (Returns tt, sample_world).
Proof. by vm_compute. Qed.

(** ** The theorems at the sample instance *)

Lemma sample_instance : heap sample_world !! 1%positive = Some sample_logger.
Proof. reflexivity. Defined.

Lemma CheckE_panics_whatever_the_flags_witness :
  heap sample_world !! 1%positive = Some sample_logger
  ∧ fst (CheckE source_levels (Some boom) [Str "ctx"] sample_world)
    = Panics (Err boom)
  ∧ fst (logger_CheckE source_levels 1%positive (Some boom) [Str "ctx"]
           sample_world)
    = Panics (Err boom).
Proof.
  split; [exact sample_instance|].
  destruct (CheckE_panics_whatever_the_flags source_levels 1%positive
              sample_logger boom [Str "ctx"] sample_world sample_instance)
    as (H1 & H2 & _).
  split; [exact H1 | exact H2].
Defined.

Lemma CheckW_reports_and_logs_witness :
  heap sample_world !! 1%positive = Some sample_logger
  ∧ (fst (logger_CheckW source_levels 1%positive (Some boom) [Str "ctx"]
            sample_world) = Returns true
     ↔ Some boom ≠ None).
Proof.
  split; [exact sample_instance|].
  destruct (CheckW_reports_and_logs source_levels 1%positive sample_logger
              (Some boom) [Str "ctx"] sample_world sample_instance)
    as (_ & H2 & _).
  exact H2.
Defined.

Lemma instance_print_needs_both_flags_witness :
  heap sample_world !! 1%positive = Some sample_logger
  ∧ (logged sample_world
       (snd (logger_E source_levels sample_Format 1%positive [Str "x"]
               sample_world))
     ↔ e sample_logger = 1 ∧ ERROR source_levels = 1).
Proof.
  split; [exact sample_instance|].
  destruct (instance_print_needs_both_flags source_levels sample_Format
              1%positive sample_logger [Str "x"] sample_world sample_instance)
    as (_ & _ & H3 & _).
  exact H3.
Defined.

Lemma CheckMultiE_panics_with_first_witness :
  heap sample_world !! 1%positive = Some sample_logger
  ∧ snd (CheckMultiE source_levels
           [None; Some (ErrVal "err1"); None; Some (ErrVal "err2")]
           [Str "batch"] sample_world)
    = writes (if ERROR source_levels =? 1
              then map (λ x, Sprintln [Str "[ERR]";
                                       Slice ([Str "batch"] ++ [Err x])])
                       (non_nil_entries
                          [None; Some (ErrVal "err1"); None;
                           Some (ErrVal "err2")])
              else []) sample_world.
Proof.
  split; [exact sample_instance|].
  destruct (CheckMultiE_panics_with_first source_levels 1%positive
              sample_logger
              [None; Some (ErrVal "err1"); None; Some (ErrVal "err2")]
              [Str "batch"] sample_world sample_instance)
    as (_ & _ & _ & _ & _ & H6 & _).
  exact H6.
Defined.

Lemma instance_D_W_E_prefix_witness :
  heap sample_world !! 1%positive = Some sample_logger
  ∧ snd (logger_D source_levels sample_Format 1%positive [Str "x"]
           sample_world)
    = (if (d sample_logger =? 1) && (DEBUG source_levels =? 1)
       then write (Sprintln [Str "[DBG]";
              Slice (Str (spec_prefix sample_Format sample_logger
                            (clock sample_world)) :: [Str "x"])])
              sample_world
       else sample_world).
Proof.
  split; [exact sample_instance|].
  destruct (instance_D_W_E_prefix source_levels sample_Format 1%positive
              sample_logger [Str "x"] sample_world sample_instance)
    as (H1 & _).
  exact H1.
Defined.

Lemma sample_has_time_format : timeFormat sample_logger ≠ "".
Proof. discriminate. Defined.

Lemma check_helpers_prefix_tag_only_witness :
  heap sample_world !! 1%positive = Some sample_logger
  ∧ timeFormat sample_logger ≠ ""
  ∧ snd (logger_CheckW source_levels 1%positive (Some boom) [Str "ctx"]
           sample_world)
    = (if (w sample_logger =? 1) && (WARN source_levels =? 1)
       then write (Sprintln [Str "[WRN]";
              Slice (Str ("[" +:+ tag sample_logger +:+ "]")
                     :: [Str "ctx"] ++ [Err boom])]) sample_world
       else sample_world).
Proof.
  split; [exact sample_instance|]. split; [exact sample_has_time_format|].
  destruct (check_helpers_prefix_tag_only source_levels sample_Format
              1%positive sample_logger boom [] [Str "ctx"] sample_world
              sample_instance sample_has_time_format)
    as (H1 & _).
  exact H1.
Defined.


(** ** The further theorems at sample inputs *)

Lemma sample_nil_receiver : heap sample_world !! 2%positive = None.
Proof. reflexivity. Defined.

Lemma nil_receiver_behaviour_witness :
  heap sample_world !! 2%positive = None
  ∧ logger_CheckE source_levels 2%positive (Some boom) [Str "ctx"] sample_world
    = (if not_nil (Some boom) then Panics nil_dereference else Returns tt,
       sample_world).
Proof.
  split; [exact sample_nil_receiver|].
  destruct (nil_receiver_behaviour source_levels sample_Format 2%positive
              (Some boom) [] [Str "ctx"] ByDefer sample_world
              sample_nil_receiver)
    as (_ & _ & _ & _ & H5 & _).
  exact H5.
Defined.

Lemma CheckE_panics_iff_error_witness :
  heap sample_world !! 1%positive = Some sample_logger
  ∧ ((∃ r, fst (logger_CheckE source_levels 1%positive (Some boom)
                  [Str "ctx"] sample_world) = Panics r)
     ↔ Some boom ≠ None).
Proof.
  split; [exact sample_instance|].
  destruct (CheckE_panics_iff_error source_levels 1%positive sample_logger
              (Some boom) [Str "ctx"] sample_world sample_instance)
    as (_ & H2 & _).
  exact H2.
Defined.

Lemma method_checks_delegate_witness :
  heap sample_world !! 1%positive = Some sample_logger
  ∧ logger_CheckW source_levels 1%positive (Some boom) [Str "ctx"] sample_world
    = (if w sample_logger =? 1
       then CheckW source_levels (Some boom)
              (Str ("[" +:+ tag sample_logger +:+ "]") :: [Str "ctx"])
              sample_world
       else (Returns (not_nil (Some boom)), sample_world)).
Proof.
  split; [exact sample_instance|].
  destruct (method_checks_delegate source_levels 1%positive sample_logger
              (Some boom) [] [Str "ctx"] sample_world sample_instance)
    as (H1 & _).
  exact H1.
Defined.

Lemma all_levels_off_is_silent_witness :
  DEBUG (mk_levels 0 0 0) ≠ 1
  ∧ WARN (mk_levels 0 0 0) ≠ 1
  ∧ ERROR (mk_levels 0 0 0) ≠ 1
  ∧ stdout (run (mk_levels 0 0 0) sample_Format
              [(Free, OpD [Str "x"]); (Method 1%positive, OpW [Str "y"]);
               (Free, OpCheckE (Some boom) [Str "ctx"])]
              sample_world)
    = stdout sample_world.
Proof.
  assert (H0 : (0 : Z) ≠ 1) by discriminate.
  split; [exact H0|]. split; [exact H0|]. split; [exact H0|].
  exact (all_levels_off_is_silent (mk_levels 0 0 0) sample_Format _
           sample_world H0 H0 H0).
Defined.

Lemma deferred_BreakOnError_on_return_witness :
  CheckW source_levels (Some boom) [Str "ctx"] sample_world
  = (Returns true,
     write (Sprintln [Str "[WRN]"; Slice ([Str "ctx"] ++ [Err boom])])
       sample_world)
  ∧ with_defer (BreakOnError source_levels)
      (CheckW source_levels (Some boom) [Str "ctx"]) sample_world
    = (Returns (Some true),
       write (Sprintln [Str "[WRN]"; Slice ([Str "ctx"] ++ [Err boom])])
         sample_world).
Proof.
  assert (Hbody : CheckW source_levels (Some boom) [Str "ctx"] sample_world
    = (Returns true,
       write (Sprintln [Str "[WRN]"; Slice ([Str "ctx"] ++ [Err boom])])
         sample_world)) by reflexivity.
  split; [exact Hbody|].
  exact (deferred_BreakOnError_on_return source_levels _ true sample_world _
           Hbody).
Defined.

Lemma panic_is_recovered_once_witness :
  @panic unit (Err boom) sample_world = (Panics (Err boom), sample_world)
  ∧ Err boom ≠ Nil
  ∧ with_defer (BreakOnError source_levels)
      (with_defer (BreakOnError source_levels) (@panic unit (Err boom)))
      sample_world
    = (Returns (Some None),
       if ERROR source_levels =? 1
       then write (Sprintln [Str "[ERR]";
                             Slice [Str "Recovered from panic:"; Err boom]])
              sample_world
       else sample_world).
Proof.
  assert (Hbody : @panic unit (Err boom) sample_world
                  = (Panics (Err boom), sample_world)) by reflexivity.
  assert (Hr : Err boom ≠ Nil) by discriminate.
  split; [exact Hbody|]. split; [exact Hr|].
  exact (panic_is_recovered_once source_levels (@panic unit (Err boom))
           (Err boom) sample_world sample_world Hbody Hr).
Defined.

Lemma check_then_recover_witness :
  findFirstError [None; Some boom; None; Some (ErrVal "late")] = Some boom
  ∧ with_defer (BreakOnError source_levels)
      (CheckMultiE source_levels
         [None; Some boom; None; Some (ErrVal "late")] [Str "batch"])
      sample_world
    = (Returns None,
       writes (if ERROR source_levels =? 1
               then map (λ y, Sprintln [Str "[ERR]";
                                        Slice ([Str "batch"] ++ [Err y])])
                        (non_nil_entries
                           [None; Some boom; None; Some (ErrVal "late")])
                    ++ [Sprintln [Str "[ERR]";
                          Slice [Str "Recovered from panic:"; Err boom]]]
               else []) sample_world).
Proof.
  assert (Hfirst : findFirstError [None; Some boom; None; Some (ErrVal "late")]
                   = Some boom) by reflexivity.
  split; [exact Hfirst|].
  destruct (check_then_recover source_levels boom
              [None; Some boom; None; Some (ErrVal "late")] [Str "batch"]
              sample_world Hfirst) as (_ & H2).
  exact H2.
Defined.

Lemma as_built_global_gate_is_open_witness :
  heap sample_world !! 1%positive = Some sample_logger
  ∧ (logged sample_world
       (snd (logger_E source_levels sample_Format 1%positive [Str "x"]
               sample_world))
     ↔ e sample_logger = 1).
Proof.
  split; [exact sample_instance|].
  destruct (as_built_global_gate_is_open sample_Format 1%positive
              sample_logger [Str "x"] sample_world sample_instance)
    as (_ & _ & _ & _ & _ & H6).
  exact H6.
Defined.
